(** * Dungeon instance manager: an interleaving model of [main.cpp]

    The program starts [n] worker threads ([DungeonManager::runDungeon]) and
    one status thread ([DungeonManager::printLiveStatus]) over three shared
    [int] counters guarded by one [std::mutex] and one
    [std::condition_variable].  This file embeds the threads statement by
    statement: every worker has a program counter named after the source line
    it is about to execute, and a step of the system is one statement of one
    thread.  The mutex and the set of threads parked on the condition
    variable are part of the state, so mutual exclusion is a theorem about
    the model and not an assumption of it. *)

From Stdlib Require Import ZArith Lia String.
From stdpp Require Import base numbers list.

Local Open Scope Z_scope.

(** ** C++ [int] arithmetic *)

Definition INT_MIN : Z := -2147483648.
Definition INT_MAX : Z := 2147483647.

(** Two's complement reduction of a mathematical integer to 32 bits. *)
Definition wrap_int (z : Z) : Z := (z + 2147483648) mod 4294967296 - 2147483648.

Definition int_add (a b : Z) : Z := wrap_int (a + b).
Definition int_sub (a b : Z) : Z := wrap_int (a - b).

Definition in_int (z : Z) : bool := (INT_MIN <=? z) && (z <=? INT_MAX).

(** ** Data *)

(** [struct Instance].  [total_time] is a [duration<double>] in the source;
    it only ever receives whole seconds between 0 and 15, at most [INT_MAX]
    times, so every value it takes is an integer below 2^53 and the double
    additions are exact.  It is kept as the integer number of seconds. *)
Record Instance := mkInstance {
  is_active : bool;
  parties_served : Z;
  total_time : Z
}.

(** The six values read from [input.txt], which the constructor stores in
    [max_instances], the three queues, [min_time] and [max_time]. *)
Record config := mkConfig {
  cfg_n : Z;
  cfg_t : Z;
  cfg_h : Z;
  cfg_d : Z;
  cfg_t1 : Z;
  cfg_t2 : Z
}.

(** Program counter of a worker inside [runDungeon]; the number is the source
    line the worker executes next.  [run_time] is the worker's only local
    variable and lives in the counter from its definition on line 58 to its
    last use on line 64. *)
Inductive wpc :=
| L36                  (* unique_lock lock(mtx) *)
| L39                  (* cv.wait: evaluate the predicate, mutex held *)
| Parked               (* inside cv.wait, mutex released, blocked *)
| Woken                (* inside cv.wait, unblocked, re-acquiring the mutex *)
| L45                  (* if (tank_queue == 0 || ...) return *)
| L50                  (* instances[id].is_active = true *)
| L51                  (* tank_queue-- *)
| L52                  (* healer_queue-- *)
| L53                  (* dps_queue -= 3 *)
| L55                  (* lock.unlock() *)
| L58                  (* run_time = time_dist(gen) *)
| L59 (run_time : Z)   (* sleep_for(run_time) *)
| L62 (run_time : Z)   (* lock.lock() *)
| L63 (run_time : Z)   (* instances[id].parties_served++ *)
| L64 (run_time : Z)   (* instances[id].total_time += run_time *)
| L65                  (* instances[id].is_active = false *)
| L68                  (* cv.notify_one() *)
| L69                  (* end of the loop body: ~unique_lock releases *)
| Stopped.             (* returned from runDungeon *)

(** Program counter of the status thread inside [printLiveStatus]. *)
Inductive mpc :=
| M96                  (* sleep_for(1s) *)
| M97                  (* unique_lock lock(mtx) *)
| M99                  (* scan, test, return or print; mutex held *)
| MStopped.

Inductive tid :=
| Worker (i : nat)
| Monitor.

Record state := mkState {
  mtx : option tid;             (* owner of the mutex *)
  tank_queue : Z;
  healer_queue : Z;
  dps_queue : Z;
  instances : list Instance;
  workers : list wpc;           (* one counter per instance thread *)
  monitor : mpc;
  notified : nat;               (* calls of cv.notify_one so far *)
  status_lines : nat            (* live snapshots printed so far *)
}.

#[global] Instance wpc_eq_dec : EqDecision wpc.
Proof. solve_decision. Defined.
#[global] Instance mpc_eq_dec : EqDecision mpc.
Proof. solve_decision. Defined.
#[global] Instance tid_eq_dec : EqDecision tid.
Proof. solve_decision. Defined.
#[global] Instance Instance_eq_dec : EqDecision Instance.
Proof. solve_decision. Defined.

(** ** Field updates *)

Definition set_mtx (o : option tid) (s : state) : state :=
  mkState o (tank_queue s) (healer_queue s) (dps_queue s) (instances s)
          (workers s) (monitor s) (notified s) (status_lines s).

Definition set_tank (z : Z) (s : state) : state :=
  mkState (mtx s) z (healer_queue s) (dps_queue s) (instances s)
          (workers s) (monitor s) (notified s) (status_lines s).

Definition set_healer (z : Z) (s : state) : state :=
  mkState (mtx s) (tank_queue s) z (dps_queue s) (instances s)
          (workers s) (monitor s) (notified s) (status_lines s).

Definition set_dps (z : Z) (s : state) : state :=
  mkState (mtx s) (tank_queue s) (healer_queue s) z (instances s)
          (workers s) (monitor s) (notified s) (status_lines s).

Definition set_instance (i : nat) (x : Instance) (s : state) : state :=
  mkState (mtx s) (tank_queue s) (healer_queue s) (dps_queue s)
          (<[i:=x]> (instances s)) (workers s) (monitor s) (notified s)
          (status_lines s).

Definition set_pc (i : nat) (p : wpc) (s : state) : state :=
  mkState (mtx s) (tank_queue s) (healer_queue s) (dps_queue s) (instances s)
          (<[i:=p]> (workers s)) (monitor s) (notified s) (status_lines s).

Definition set_monitor (m : mpc) (s : state) : state :=
  mkState (mtx s) (tank_queue s) (healer_queue s) (dps_queue s) (instances s)
          (workers s) m (notified s) (status_lines s).

Definition count_notify (s : state) : state :=
  mkState (mtx s) (tank_queue s) (healer_queue s) (dps_queue s) (instances s)
          (workers s) (monitor s) (S (notified s)) (status_lines s).

Definition count_status (s : state) : state :=
  mkState (mtx s) (tank_queue s) (healer_queue s) (dps_queue s) (instances s)
          (workers s) (monitor s) (notified s) (S (status_lines s)).

(** ** The conditions of the source *)

(** Line 45 and line 107: [tank_queue == 0 || healer_queue == 0 || dps_queue < 3]. *)
Definition no_more_parties (s : state) : bool :=
  (tank_queue s =? 0) || (healer_queue s =? 0) || (dps_queue s <? 3).

(** Lines 40-41, the predicate handed to [cv.wait]. *)
Definition wait_pred (s : state) : bool :=
  ((0 <? tank_queue s) && (0 <? healer_queue s) && (3 <=? dps_queue s))
  || ((tank_queue s =? 0) || (healer_queue s =? 0) || (dps_queue s <? 3)).

(** Lines 99-105. *)
Definition all_instances_empty (s : state) : bool :=
  forallb (fun x => negb (is_active x)) (instances s).

(** Line 154, the test that throws "Invalid input values". *)
Definition invalid_input (c : config) : bool :=
  (cfg_n c <=? 0) || (cfg_t c <? 0) || (cfg_h c <? 0) || (cfg_d c <? 0)
  || (cfg_t1 c <? 0) || (cfg_t2 c <? 0) || (cfg_t2 c <? cfg_t1 c)
  || (15 <? cfg_t2 c).

(** ** Initial state: the constructor on lines 73-76 and [simulate] up to the
    point where all threads exist. *)

Definition init (c : config) : state :=
  mkState None (cfg_t c) (cfg_h c) (cfg_d c)
          (replicate (Z.to_nat (cfg_n c)) (mkInstance false 0 0))
          (replicate (Z.to_nat (cfg_n c)) L36)
          M96 0%nat 0%nat.

(** ** Steps *)

(** The scheduler's choices.  [Run i] lets worker [i] execute its next
    statement; [Draw i rt] is line 58 returning [rt]; [Wake i j] is line 68
    where [notify_one] unblocks the parked worker [j]; [Spurious j] is a
    spurious wake-up of [j], which [std::condition_variable] permits;
    [Mon] lets the status thread execute its next statement. *)
Inductive event :=
| Run (i : nat)
| Draw (i : nat) (rt : Z)
| Wake (i j : nat)
| Spurious (j : nat)
| Mon.

Definition mtx_free (s : state) : bool :=
  match mtx s with None => true | Some _ => false end.

Definition none_parked (s : state) : bool :=
  forallb (fun p => negb (bool_decide (p = Parked))) (workers s).

(** One deterministic statement of worker [i]. *)
Definition run_worker (i : nat) (s : state) : option state :=
  match workers s !! i with
  | Some L36 =>
      if mtx_free s then Some (set_pc i L39 (set_mtx (Some (Worker i)) s))
      else None
  | Some L39 =>
      if wait_pred s then Some (set_pc i L45 s)
      else Some (set_pc i Parked (set_mtx None s))
  | Some Woken =>
      if mtx_free s then Some (set_pc i L39 (set_mtx (Some (Worker i)) s))
      else None
  | Some L45 =>
      if no_more_parties s then Some (set_pc i Stopped (set_mtx None s))
      else Some (set_pc i L50 s)
  | Some L50 =>
      match instances s !! i with
      | Some x =>
          Some (set_pc i L51
                  (set_instance i
                     (mkInstance true (parties_served x) (total_time x)) s))
      | None => None
      end
  | Some L51 => Some (set_pc i L52 (set_tank (int_sub (tank_queue s) 1) s))
  | Some L52 => Some (set_pc i L53 (set_healer (int_sub (healer_queue s) 1) s))
  | Some L53 => Some (set_pc i L55 (set_dps (int_sub (dps_queue s) 3) s))
  | Some L55 => Some (set_pc i L58 (set_mtx None s))
  | Some (L59 rt) => Some (set_pc i (L62 rt) s)
  | Some (L62 rt) =>
      if mtx_free s then Some (set_pc i (L63 rt) (set_mtx (Some (Worker i)) s))
      else None
  | Some (L63 rt) =>
      match instances s !! i with
      | Some x =>
          Some (set_pc i (L64 rt)
                  (set_instance i
                     (mkInstance (is_active x)
                        (int_add (parties_served x) 1) (total_time x)) s))
      | None => None
      end
  | Some (L64 rt) =>
      match instances s !! i with
      | Some x =>
          Some (set_pc i L65
                  (set_instance i
                     (mkInstance (is_active x) (parties_served x)
                        (total_time x + rt)) s))
      | None => None
      end
  | Some L65 =>
      match instances s !! i with
      | Some x =>
          Some (set_pc i L68
                  (set_instance i
                     (mkInstance false (parties_served x) (total_time x)) s))
      | None => None
      end
  | Some L68 =>
      if none_parked s then Some (set_pc i L69 (count_notify s)) else None
  | Some L69 => Some (set_pc i L36 (set_mtx None s))
  | Some L58 | Some Parked | Some Stopped | None => None
  end.

(** One statement of the status thread. *)
Definition run_monitor (s : state) : option state :=
  match monitor s with
  | M96 => Some (set_monitor M97 s)
  | M97 =>
      if mtx_free s then Some (set_monitor M99 (set_mtx (Some Monitor) s))
      else None
  | M99 =>
      if no_more_parties s && all_instances_empty s
      then Some (set_monitor MStopped (set_mtx None s))
      else Some (set_monitor M96 (set_mtx None (count_status s)))
  | MStopped => None
  end.

Definition exec (c : config) (e : event) (s : state) : option state :=
  match e with
  | Run i => run_worker i s
  | Draw i rt =>
      match workers s !! i with
      | Some L58 =>
          if (cfg_t1 c <=? rt) && (rt <=? cfg_t2 c)
          then Some (set_pc i (L59 rt) s) else None
      | _ => None
      end
  | Wake i j =>
      match workers s !! i, workers s !! j with
      | Some L68, Some Parked =>
          Some (set_pc i L69 (set_pc j Woken (count_notify s)))
      | _, _ => None
      end
  | Spurious j =>
      match workers s !! j with
      | Some Parked => Some (set_pc j Woken s)
      | _ => None
      end
  | Mon => run_monitor s
  end.

(** A schedule is a list of events; [run] executes it from left to right. *)
Fixpoint run (c : config) (sch : list event) (s : state) : option state :=
  match sch with
  | [] => Some s
  | e :: sch' =>
      match exec c e s with
      | Some s' => run c sch' s'
      | None => None
      end
  end.

Inductive reachable (c : config) : state -> Prop :=
| reach_init : reachable c (init c)
| reach_step s e s' :
    reachable c s -> exec c e s = Some s' -> reachable c s'.

(** [steps c s s']: the system can move from [s] to [s'] in zero or more steps. *)
Inductive steps (c : config) : state -> state -> Prop :=
| steps_refl s : steps c s s
| steps_cons s e s' s'' :
    exec c e s = Some s' -> steps c s' s'' -> steps c s s''.

(** ** [main] *)

(** What [main] finds when it opens [input.txt]: no file, a file from which
    six [int]s cannot be extracted, or six integers. *)
Inductive input_file :=
| NoFile
| Garbled
| Values (c : config).

(** [operator>>] into an [int] fails on a number outside the [int] range. *)
Definition readable (c : config) : bool :=
  in_int (cfg_n c) && in_int (cfg_t c) && in_int (cfg_h c)
  && in_int (cfg_d c) && in_int (cfg_t1 c) && in_int (cfg_t2 c).

Record outcome := mkOutcome {
  exit_status : Z;
  stderr_line : option string;
  workers_started : nat;
  report : option state          (* what printSummary reads *)
}.

Definition failure (msg : string) : outcome :=
  mkOutcome 1 (Some msg) 0%nat None.

(** How a process ends: [main] returns, or [std::terminate] aborts it. *)
Inductive result :=
| Returned (o : outcome)
| Aborted (started : nat).      (* workers started before the abort *)

(** What the machine does at start-up.  [ctor_throws]: the constructor of
    lines 73-76 throws ([std::bad_alloc] from [instances(n)], or
    [std::random_device]), with this [what()].  [start_throws = Some (k, w)]:
    the [k]-th thread start of [simulate] throws with [what() = w], where
    start 0 is the status thread of line 80 and start [k+1] is the
    [emplace_back] of line 83 for worker [k]. *)
Record startup := mkStartup {
  ctor_throws : option string;
  start_throws : option (nat * string)
}.

(** A machine on which nothing throws. *)
Definition no_fault : startup := mkStartup None None.

(** The constructor and all [n + 1] thread starts succeed. *)
Definition startup_ok (c : config) (m : startup) : bool :=
  match ctor_throws m with
  | Some _ => false
  | None =>
      match start_throws m with
      | None => true
      | Some (k, _) => (Z.to_nat (cfg_n c) <? k)%nat
      end
  end.

Definition all_stopped (s : state) : bool :=
  forallb (fun p => bool_decide (p = Stopped)) (workers s).

(** [simulate] returns when every worker and the status thread are joined. *)
Definition finished (s : state) : bool :=
  all_stopped s && bool_decide (monitor s = MStopped).

(** [simulate] once all threads exist, under the schedule [sch].  The result
    is [None] when [sch] is not a complete run (an event that is not
    enabled, or threads still running at its end). *)
Definition simulate (c : config) (sch : list event) : option result :=
  match run c sch (init c) with
  | Some s =>
      if finished s
      then Some (Returned (mkOutcome 0 None (Z.to_nat (cfg_n c)) (Some s)))
      else None
  | None => None
  end.

(** [main] on the machine [m] under the schedule [sch] of its threads.  Every
    exception is a [std::exception] and is caught on line 161, which prints
    [what()] and returns 1; except that an exception thrown by line 83
    unwinds [simulate] while [status_thread] is joinable, whose destructor
    calls [std::terminate]. *)
Definition main (f : input_file) (m : startup) (sch : list event)
  : option result :=
  match f with
  | NoFile =>
      Some (Returned (failure "Error: Unable to open input file"%string))
  | Garbled =>
      Some (Returned (failure "Error: Error reading inputs from the file"%string))
  | Values c =>
      if negb (readable c)
      then Some (Returned
                   (failure "Error: Error reading inputs from the file"%string))
      else if invalid_input c
      then Some (Returned (failure "Error: Invalid input values"%string))
      else
        match ctor_throws m with
        | Some w => Some (Returned (failure ("Error: " ++ w)%string))
        | None =>
            match start_throws m with
            | Some (O, w) => Some (Returned (failure ("Error: " ++ w)%string))
            | Some (S k, w) =>
                if (k <? Z.to_nat (cfg_n c))%nat then Some (Aborted k)
                else simulate c sch
            | None => simulate c sch
            end
        end
  end.

(** A configuration that passes lines 151-156. *)
Definition valid_config (c : config) : Prop :=
  readable c = true /\ invalid_input c = false.

(** ** Bookkeeping used by the invariants *)

Definition Zsum (l : list Z) : Z := foldr Z.add 0 l.

Definition total_served (s : state) : Z :=
  Zsum (parties_served <$> instances s).

Definition b2z (b : bool) : Z := if b then 1 else 0.

(** The program counters at which the worker owns the mutex. *)
Definition holds_lock (p : wpc) : bool :=
  match p with
  | L39 | L45 | L50 | L51 | L52 | L53 | L55
  | L63 _ | L64 _ | L65 | L68 | L69 => true
  | _ => false
  end.

(** The worker has taken its tank (line 51 done) and the party is not yet
    counted in [parties_served] (line 63 not done). *)
Definition took_tank (p : wpc) : bool :=
  match p with
  | L52 | L53 | L55 | L58 | L59 _ | L62 _ | L63 _ => true
  | _ => false
  end.

Definition took_healer (p : wpc) : bool :=
  match p with
  | L53 | L55 | L58 | L59 _ | L62 _ | L63 _ => true
  | _ => false
  end.

Definition took_dps (p : wpc) : bool :=
  match p with
  | L55 | L58 | L59 _ | L62 _ | L63 _ => true
  | _ => false
  end.

(** The worker is between the availability check and the recording of the
    run: a party is being formed or is running. *)
Definition in_party (p : wpc) : bool :=
  match p with
  | L50 | L51 | L52 | L53 | L55 | L58 | L59 _ | L62 _ | L63 _ => true
  | _ => false
  end.

(** No worker is inside a party. *)
Definition quiescent (s : state) : bool :=
  forallb (fun p => negb (in_party p)) (workers s).

(** The value [is_active] has while the worker is at [p]. *)
Definition active_at (p : wpc) : bool :=
  match p with
  | L51 | L52 | L53 | L55 | L58 | L59 _ | L62 _ | L63 _ | L64 _ | L65 => true
  | _ => false
  end.

(** What the availability check on line 45 has established for the
    statements that follow it. *)
Definition guard (p : wpc) (s : state) : Prop :=
  match p with
  | L50 | L51 => 0 < tank_queue s /\ 0 < healer_queue s /\ 3 <= dps_queue s
  | L52 => 0 < healer_queue s /\ 3 <= dps_queue s
  | L53 => 3 <= dps_queue s
  | _ => True
  end.

(** The [run_time] held in a program counter. *)
Definition pc_run_time (p : wpc) : option Z :=
  match p with
  | L59 rt | L62 rt | L63 rt | L64 rt => Some rt
  | _ => None
  end.

(** The number of runs whose duration [total_time] already contains: between
    line 63 and line 64 the run just counted is not yet timed. *)
Definition timed_runs (p : wpc) (x : Instance) : Z :=
  match p with
  | L64 _ => parties_served x - 1
  | _ => parties_served x
  end.

Record Inv (c : config) (s : state) : Prop := mkInv {
  inv_len_w : length (workers s) = Z.to_nat (cfg_n c);
  inv_len_i : length (instances s) = Z.to_nat (cfg_n c);
  inv_lock_w : forall i p, workers s !! i = Some p ->
      (holds_lock p = true <-> mtx s = Some (Worker i));
  inv_lock_m : monitor s = M99 <-> mtx s = Some Monitor;
  inv_awake : forall i p, workers s !! i = Some p ->
      p <> Parked /\ p <> Woken;
  inv_nonneg : 0 <= tank_queue s /\ 0 <= healer_queue s /\ 0 <= dps_queue s;
  inv_guard : forall i p, workers s !! i = Some p -> guard p s;
  inv_tank : cfg_t c - tank_queue s
             = total_served s + Zsum ((fun p => b2z (took_tank p)) <$> workers s);
  inv_healer : cfg_h c - healer_queue s
             = total_served s + Zsum ((fun p => b2z (took_healer p)) <$> workers s);
  inv_dps : cfg_d c - dps_queue s
             = 3 * (total_served s + Zsum ((fun p => b2z (took_dps p)) <$> workers s));
  inv_served : forall i x, instances s !! i = Some x -> 0 <= parties_served x;
  inv_rt : forall i p rt, workers s !! i = Some p -> pc_run_time p = Some rt ->
      cfg_t1 c <= rt <= cfg_t2 c;
  inv_time : forall i x p, instances s !! i = Some x ->
      workers s !! i = Some p ->
      cfg_t1 c * timed_runs p x <= total_time x <= cfg_t2 c * timed_runs p x;
  inv_active : forall i x p, instances s !! i = Some x ->
      workers s !! i = Some p -> is_active x = active_at p
}.

(** ** Scenarios, schedules and auxiliary definitions *)

Definition pool (s : state) : Z * Z * Z :=
  (tank_queue s, healer_queue s, dps_queue s).

Definition scenarioA : config := mkConfig 1 1 1 3 0 0.
Definition scenarioB : config := mkConfig 2 2 2 6 1 1.
Definition scenarioC : config := mkConfig 3 0 5 10 0 0.
Definition scenarioD : config := mkConfig 1 1 1 2 0 0.

(** Scenario B: worker 0 forms a party and starts its run, worker 1 passes
    the check and has taken its tank. *)
Definition schB_mid : list event :=
  [Run 0; Run 0; Run 0; Run 0; Run 0; Run 0; Run 0; Run 0; Draw 0 1; Mon;
   Run 1; Run 1; Run 1; Run 1; Run 1]%nat.

Definition stB_mid : state :=
  mkState (Some (Worker 1)) 0 1 3
    [mkInstance true 0 0; mkInstance true 0 0] [L59 1; L52] M97 0 0.

(** Scenario B after worker 0 has served one whole party. *)
Definition schB_one : list event :=
  [Run 0; Run 0; Run 0; Run 0; Run 0; Run 0; Run 0; Run 0; Draw 0 1;
   Run 0; Run 0; Run 0; Run 0; Run 0; Run 0; Run 0]%nat.

Definition stB_one : state :=
  mkState None 1 1 3
    [mkInstance false 1 1; mkInstance false 0 0] [L36; L36] M96 1 0.

(** Scenario C with worker 0 stopped. *)
Definition stC_one : state :=
  mkState None 0 5 10
    [mkInstance false 0 0; mkInstance false 0 0; mkInstance false 0 0]
    [Stopped; L36; L36] M96 0 0.

(** Scenario A at the moment its only tank is taken, and at its end. *)
Definition stA_taken : state :=
  mkState (Some (Worker 0)) 0 1 3 [mkInstance true 0 0] [L52] M96 0 0.

Definition stA_final : state :=
  mkState None 0 0 0 [mkInstance false 1 0] [Stopped] MStopped 1 0.

Definition schA_tail : list event :=
  [Run 0; Run 0; Run 0; Draw 0 0; Run 0; Run 0; Run 0; Run 0; Run 0; Run 0;
   Run 0; Run 0; Run 0; Run 0; Mon; Mon; Mon]%nat.

Definition schA : list event :=
  [Run 0; Run 0; Run 0; Run 0; Run 0]%nat ++ schA_tail.

Definition stB_wait : state :=
  mkState (Some (Worker 1)) 1 1 3
    [mkInstance true 0 0; mkInstance false 0 0] [L59 1; L39] M96 0 0.

(** The reading of "the notify is never skipped on the exit path": the step
    that takes a worker from line 45 to [Stopped] calls [notify_one]. *)
Definition notify_on_exit (c : config) : Prop :=
  forall s i s', reachable c s -> workers s !! i = Some L45 ->
    exec c (Run i) s = Some s' -> workers s' !! i = Some Stopped ->
    (notified s < notified s')%nat.

(** Scenario C with worker 0 at the check of line 45. *)
Definition stC_check : state :=
  mkState (Some (Worker 0)) 0 5 10
    [mkInstance false 0 0; mkInstance false 0 0; mkInstance false 0 0]
    [L45; L36; L36] M96 0 0.

(** The program counters of a worker that never forms a party. *)
Definition on_exit_path (p : wpc) : bool :=
  match p with
  | L36 | L39 | L45 | Stopped => true
  | _ => false
  end.

(** Each worker in turn runs lines 36, 39 and 45; then the status thread
    wakes, locks and returns. *)
Definition stop_all (n : nat) : list event :=
  flat_map (fun i => [Run i; Run i; Run i]) (seq 0 n) ++ [Mon; Mon; Mon].

(** The initial state with the first [k] workers stopped. *)
Definition stopped_prefix (c : config) (k : nat) : state :=
  mkState None (cfg_t c) (cfg_h c) (cfg_d c)
          (replicate (Z.to_nat (cfg_n c)) (mkInstance false 0 0))
          (replicate k Stopped ++ replicate (Z.to_nat (cfg_n c) - k) L36)
          M96 0%nat 0%nat.

(** The thread that an event lets run. *)
Definition actor (e : event) : tid :=
  match e with
  | Run i | Draw i _ | Wake i _ | Spurious i => Worker i
  | Mon => Monitor
  end.

(** ** Definitions for the further properties *)

(** Statements a worker still has to execute before its next [tank_queue--]
    or its [return], whichever the check of line 45 decides. *)
Definition rank (p : wpc) : Z :=
  match p with
  | Stopped => 0
  | L51 => 1
  | L50 => 2
  | L45 => 3
  | L39 => 4
  | Woken => 5
  | Parked => 6
  | L36 => 5
  | L69 => 6
  | L68 => 7
  | L65 => 8
  | L64 _ => 9
  | L63 _ => 10
  | L62 _ => 11
  | L59 _ => 12
  | L58 => 13
  | L55 => 14
  | L53 => 15
  | L52 => 16
  end.

(** A bound on the worker statements still to come: seventeen per tank left
    in the queue, plus what each worker has left of its current round. *)
Definition work_left (s : state) : Z :=
  17 * tank_queue s + Zsum (rank <$> workers s).

Definition is_worker_event (e : event) : bool :=
  match e with Mon => false | _ => true end.

(** The number of worker statements in a schedule. *)
Definition worker_events (sch : list event) : nat :=
  length (filter (fun e => is_worker_event e = true) sch).

(** A party has been counted on line 63 and the [notify_one] of line 68 that
    follows it is still to come. *)
Definition notify_pending (p : wpc) : bool :=
  match p with
  | L64 _ | L65 | L68 => true
  | _ => false
  end.

(** The worker is simulating its dungeon run: lines 58 to 62, between the
    [unlock] of line 55 and the [lock] of line 62. *)
Definition in_dungeon (p : wpc) : bool :=
  match p with
  | L58 | L59 _ | L62 _ => true
  | _ => false
  end.

(** Instances shown as "Active" by a scan of [printLiveStatus]. *)
Definition active_count (s : state) : Z :=
  Zsum ((fun x => b2z (is_active x)) <$> instances s).

Definition total_busy_time (s : state) : Z :=
  Zsum (total_time <$> instances s).

(** Scenario B, scanned by the status thread while worker 0 runs its
    dungeon. *)
Definition stB_scan : state :=
  mkState (Some Monitor) 1 1 3
    [mkInstance true 0 0; mkInstance false 0 0] [L59 1; L36] M99 0 0.

(** ** Definitions for runs that start with no party to form *)

(** Statements a worker that finds no party still has to execute: lines
    36, 39 and 45. *)
Definition exit_rank (p : wpc) : Z :=
  match p with
  | L36 => 3
  | L39 => 2
  | L45 => 1
  | _ => 0
  end.

(** Statements the status thread has to execute until its first test. *)
Definition monitor_rank (m : mpc) : Z :=
  match m with
  | M96 => 3
  | M97 => 2
  | M99 => 1
  | MStopped => 0
  end.

(** The number of statements of thread [t] in a schedule. *)
Definition events_of (t : tid) (sch : list event) : nat :=
  length (filter (fun e => actor e = t) sch).

(** The states of a run that starts with no party to form. *)
Record exiting (c : config) (s : state) : Prop := mkExiting {
  ex_inv : Inv c s;
  ex_terminal : no_more_parties s = true;
  ex_path : forall i p, workers s !! i = Some p -> on_exit_path p = true;
  ex_empty : all_instances_empty s = true
}.

(** Scenario B with worker 0 at the [notify_one] that ends its first run. *)
Definition stB_notify : state :=
  mkState (Some (Worker 0)) 1 1 3
    [mkInstance false 1 1; mkInstance false 0 0] [L68; L36] M96 0 0.

(** * Proofs *)

Lemma wrap_int_id z : INT_MIN <= z <= INT_MAX -> wrap_int z = z.
Proof.
  unfold INT_MIN, INT_MAX, wrap_int. intros H.
  rewrite Z.mod_small by lia. lia.
Qed.

Lemma Zsum_cons a l : Zsum (a :: l) = a + Zsum l.
Proof. reflexivity. Qed.

Lemma Zsum_app l1 l2 : Zsum (l1 ++ l2) = Zsum l1 + Zsum l2.
Proof. induction l1 as [|a l1 IH]; simpl; [done | rewrite IH; lia]. Qed.

Lemma Zsum_insert {A} (f : A -> Z) (l : list A) i x y :
  l !! i = Some x ->
  Zsum (f <$> <[i:=y]> l) = Zsum (f <$> l) - f x + f y.
Proof.
  revert i. induction l as [|a l IH]; intros [|i] H; simplify_eq/=; try lia.
  rewrite (IH _ H). lia.
Qed.

Lemma Zsum_nonneg {A} (f : A -> Z) (l : list A) :
  (forall j y, l !! j = Some y -> 0 <= f y) -> 0 <= Zsum (f <$> l).
Proof.
  induction l as [|a l IH]; intros Hpos; [done|].
  assert (0 <= f a) by (apply (Hpos 0%nat); done).
  assert (0 <= Zsum (f <$> l)) by (apply IH; intros j y Hj; apply (Hpos (S j)); done).
  rewrite fmap_cons, Zsum_cons. lia.
Qed.

Lemma Zsum_lookup_le {A} (f : A -> Z) (l : list A) i x :
  (forall j y, l !! j = Some y -> 0 <= f y) ->
  l !! i = Some x -> f x <= Zsum (f <$> l).
Proof.
  revert i. induction l as [|a l IH]; intros i Hpos H; [done|].
  assert (0 <= f a) by (apply (Hpos 0%nat); done).
  assert (Hpos' : forall j y, l !! j = Some y -> 0 <= f y)
    by (intros j y Hj; apply (Hpos (S j)); done).
  pose proof (Zsum_nonneg f l Hpos').
  rewrite fmap_cons, Zsum_cons.
  destruct i as [|i]; simplify_eq/=; [lia|].
  pose proof (IH i Hpos' H). lia.
Qed.

Lemma Zsum_replicate_0 {A} (f : A -> Z) n a : f a = 0 -> Zsum (f <$> replicate n a) = 0.
Proof.
  intros H. induction n as [|n IH]; [done|].
  rewrite replicate_S, fmap_cons, Zsum_cons. lia.
Qed.

Lemma b2z_nonneg b : 0 <= b2z b.
Proof. destruct b; simpl; lia. Qed.

Lemma wait_pred_nonneg s :
  0 <= tank_queue s -> 0 <= healer_queue s -> wait_pred s = true.
Proof.
  intros Ht Hh. unfold wait_pred.
  destruct (Z.eqb_spec (tank_queue s) 0), (Z.eqb_spec (healer_queue s) 0),
    (Z.ltb_spec (dps_queue s) 3), (Z.ltb_spec 0 (tank_queue s)),
    (Z.ltb_spec 0 (healer_queue s)), (Z.leb_spec 3 (dps_queue s)); simpl; try done; lia.
Qed.

Lemma no_more_parties_spec s :
  no_more_parties s = true <->
  tank_queue s = 0 \/ healer_queue s = 0 \/ dps_queue s < 3.
Proof. unfold no_more_parties. rewrite !orb_true_iff, !Z.eqb_eq, Z.ltb_lt. tauto. Qed.

Lemma no_more_parties_false s :
  no_more_parties s = false <->
  tank_queue s <> 0 /\ healer_queue s <> 0 /\ 3 <= dps_queue s.
Proof. unfold no_more_parties. rewrite !orb_false_iff, !Z.eqb_neq, Z.ltb_ge. tauto. Qed.

Lemma mtx_free_spec s : mtx_free s = true <-> mtx s = None.
Proof. unfold mtx_free. destruct (mtx s); split; congruence. Qed.

Lemma Inv_init c : valid_config c -> Inv c (init c).
Proof.
  intros [Hr Hv]. unfold invalid_input in Hv.
  rewrite !orb_false_iff, !Z.leb_gt, !Z.ltb_ge in Hv.
  split; simpl.
  - apply length_replicate.
  - apply length_replicate.
  - intros i p [-> _]%lookup_replicate. simpl. split; discriminate.
  - split; discriminate.
  - intros i p [-> _]%lookup_replicate. split; discriminate.
  - lia.
  - intros i p [-> _]%lookup_replicate. exact I.
  - unfold total_served; simpl. rewrite !Zsum_replicate_0 by done. lia.
  - unfold total_served; simpl. rewrite !Zsum_replicate_0 by done. lia.
  - unfold total_served; simpl. rewrite !Zsum_replicate_0 by done. lia.
  - intros i x [-> _]%lookup_replicate. simpl. lia.
  - intros i p rt [-> _]%lookup_replicate. discriminate.
  - intros i x p [-> _]%lookup_replicate [-> _]%lookup_replicate. simpl. lia.
  - intros i x p [-> _]%lookup_replicate [-> _]%lookup_replicate. done.
Qed.

(** Case analysis on an enabled event. *)
Ltac step_cases H :=
  match type of H with
  | exec _ ?e _ = Some _ =>
      destruct e; simpl in H; unfold run_worker, run_monitor in H
  end;
  repeat match type of H with
  | context [match ?x with _ => _ end] => destruct x eqn:?; try discriminate H
  end;
  injection H as <-.

Ltac prune Hinv :=
  try (exfalso;
       match goal with
       | Hp : workers _ !! _ = Some Parked |- _ =>
           apply (inv_awake _ _ Hinv) in Hp; tauto
       | Hp : workers _ !! _ = Some Woken |- _ =>
           apply (inv_awake _ _ Hinv) in Hp; tauto
       | Hp : wait_pred _ = false |- _ =>
           rewrite wait_pred_nonneg in Hp by apply Hinv; discriminate
       end).

Lemma valid_config_bounds c :
  valid_config c ->
  0 < cfg_n c /\ 0 <= cfg_t c <= INT_MAX /\ 0 <= cfg_h c <= INT_MAX
  /\ 0 <= cfg_d c <= INT_MAX /\ 0 <= cfg_t1 c <= cfg_t2 c /\ cfg_t2 c <= 15.
Proof.
  intros [Hr Hv]. unfold invalid_input in Hv. unfold readable, in_int in Hr.
  rewrite !orb_false_iff, !Z.leb_gt, !Z.ltb_ge in Hv.
  rewrite !andb_true_iff, !Z.leb_le in Hr. lia.
Qed.

Lemma took_sums_nonneg s :
  0 <= Zsum ((fun p => b2z (took_tank p)) <$> workers s)
  /\ 0 <= Zsum ((fun p => b2z (took_healer p)) <$> workers s)
  /\ 0 <= Zsum ((fun p => b2z (took_dps p)) <$> workers s).
Proof. repeat split; apply Zsum_nonneg; intros; apply b2z_nonneg. Qed.

Lemma Inv_served_nonneg c s : Inv c s -> 0 <= total_served s.
Proof. intros Hinv. apply Zsum_nonneg. intros j y Hj. exact (inv_served _ _ Hinv _ _ Hj). Qed.

(** The counters never exceed their initial values, hence stay [int]s. *)
Lemma Inv_upper c s :
  valid_config c -> Inv c s ->
  tank_queue s <= cfg_t c <= INT_MAX /\ healer_queue s <= cfg_h c <= INT_MAX
  /\ dps_queue s <= cfg_d c <= INT_MAX.
Proof.
  intros Hv Hinv. pose proof (valid_config_bounds _ Hv).
  pose proof (took_sums_nonneg s). pose proof (Inv_served_nonneg _ _ Hinv).
  pose proof (inv_tank _ _ Hinv). pose proof (inv_healer _ _ Hinv).
  pose proof (inv_dps _ _ Hinv). lia.
Qed.

(** Line 63 cannot overflow: the party being recorded is one of the at most
    [cfg_t c] parties formed so far. *)
Lemma Inv_served_upper c s i x rt :
  valid_config c -> Inv c s ->
  workers s !! i = Some (L63 rt) -> instances s !! i = Some x ->
  0 <= parties_served x /\ parties_served x + 1 <= INT_MAX.
Proof.
  intros Hv Hinv Hw Hx. pose proof (valid_config_bounds _ Hv).
  pose proof (inv_tank _ _ Hinv) as Ht. pose proof (inv_nonneg _ _ Hinv).
  pose proof (inv_served _ _ Hinv _ _ Hx).
  assert (parties_served x <= total_served s).
  { apply (Zsum_lookup_le parties_served _ i); [|done].
    intros j y Hj. exact (inv_served _ _ Hinv _ _ Hj). }
  assert (1 <= Zsum ((fun p => b2z (took_tank p)) <$> workers s)).
  { change 1 with ((fun p => b2z (took_tank p)) (L63 rt)).
    apply (Zsum_lookup_le _ _ i); [|done]. intros; apply b2z_nonneg. }
  lia.
Qed.

Ltac split_lookup Hp j :=
  simpl in Hp;
  lazymatch type of Hp with
  | <[?k:=_]> _ !! _ = _ =>
      first
        [ rewrite list_lookup_insert_ne in Hp by done
        | rewrite list_lookup_insert_eq in Hp by (eapply lookup_lt_Some; eauto);
          injection Hp as <-
        | destruct (decide (k = j)) as [->|?];
          [ rewrite list_lookup_insert_eq in Hp by (eapply lookup_lt_Some; eauto);
            injection Hp as <-
          | rewrite list_lookup_insert_ne in Hp by done ] ]
  | _ => idtac
  end.

(** Everything the lock invariants say about the threads named in the
    context. *)
Ltac lock_facts Hinv :=
  repeat match goal with
  | Hp : workers _ !! ?i = Some ?p |- _ =>
      lazymatch goal with
      | _ : holds_lock p = true <-> _ = Some (Worker i) |- _ => fail
      | _ => pose proof (inv_lock_w _ _ Hinv _ _ Hp)
      end
  end;
  pose proof (inv_lock_m _ _ Hinv);
  repeat match goal with
  | Hf : mtx_free _ = true |- _ => apply mtx_free_spec in Hf
  end.

(** Two distinct workers cannot both be at a program counter that owns the
    mutex. *)
Ltac lock_clash :=
  exfalso;
  match goal with
  | H1 : true = true <-> ?m = Some (Worker ?i),
    H2 : true = true <-> ?m = Some (Worker ?j) |- _ =>
      assert (m = Some (Worker i)) by (apply H1; reflexivity);
      assert (m = Some (Worker j)) by (apply H2; reflexivity);
      congruence
  end.

Ltac guard_facts Hinv :=
  repeat match goal with
  | Hp : workers _ !! ?i = Some ?p |- _ =>
      lazymatch goal with
      | _ : guard p _ |- _ => fail
      | _ => pose proof (inv_guard _ _ Hinv _ _ Hp)
      end
  end.

Ltac int_arith :=
  unfold int_sub, int_add, INT_MIN, INT_MAX in *;
  rewrite ?wrap_int_id by (unfold INT_MIN, INT_MAX; lia).

Ltac sum_insert :=
  unfold total_served; simpl;
  repeat match goal with
  | Hp : ?l !! ?i = Some ?x |- context [Zsum (?f <$> <[?i:=?y]> ?l)] =>
      rewrite (Zsum_insert f l i x y Hp)
  end; simpl.

Section Preservation.
Variable c : config.
Hypothesis Hvalid : valid_config c.
Variables (e : event) (s s' : state).
Hypothesis Hinv : Inv c s.
Hypothesis Hstep : exec c e s = Some s'.

Lemma step_len_w : length (workers s') = Z.to_nat (cfg_n c).
Proof using Hinv Hstep.
  pose proof (inv_len_w _ _ Hinv). pose proof Hstep as H'.
  step_cases H'; prune Hinv; simpl; rewrite ?length_insert; done.
Qed.

Lemma step_len_i : length (instances s') = Z.to_nat (cfg_n c).
Proof using Hinv Hstep.
  pose proof (inv_len_i _ _ Hinv). pose proof Hstep as H'.
  step_cases H'; prune Hinv; simpl; rewrite ?length_insert; done.
Qed.

Lemma step_awake i p : workers s' !! i = Some p -> p <> Parked /\ p <> Woken.
Proof using Hinv Hstep.
  pose proof Hstep as H'.
  step_cases H'; prune Hinv; simpl; intros Hp;
    try (exact (inv_awake _ _ Hinv _ _ Hp));
    match type of Hp with
    | <[?k:=_]> _ !! _ = _ =>
        destruct (decide (k = i)) as [->|Hne];
        [ rewrite list_lookup_insert_eq in Hp by (eapply lookup_lt_Some; eauto);
          injection Hp as <-; split; discriminate
        | rewrite list_lookup_insert_ne in Hp by done;
          exact (inv_awake _ _ Hinv _ _ Hp) ]
    end.
Qed.

Lemma step_lock_w i p :
  workers s' !! i = Some p -> (holds_lock p = true <-> mtx s' = Some (Worker i)).
Proof using Hinv Hstep.
  pose proof Hstep as H'.
  step_cases H'; prune Hinv; intros Hp; split_lookup Hp i;
    lock_facts Hinv; simpl in *; try tauto;
    intuition (try discriminate; try congruence).
Qed.

Lemma step_lock_m : monitor s' = M99 <-> mtx s' = Some Monitor.
Proof using Hinv Hstep.
  pose proof Hstep as H'.
  step_cases H'; prune Hinv; 
    lock_facts Hinv; simpl in *; try tauto;
    intuition (try discriminate; try congruence).
Qed.

Lemma step_nonneg :
  0 <= tank_queue s' /\ 0 <= healer_queue s' /\ 0 <= dps_queue s'.
Proof using Hvalid Hinv Hstep.
  pose proof (Inv_upper _ _ Hvalid Hinv). pose proof (inv_nonneg _ _ Hinv).
  pose proof Hstep as H'.
  step_cases H'; prune Hinv; guard_facts Hinv; simpl in *; int_arith; lia.
Qed.

Lemma step_guard i p : workers s' !! i = Some p -> guard p s'.
Proof using Hvalid Hinv Hstep.
  pose proof (Inv_upper _ _ Hvalid Hinv). pose proof (inv_nonneg _ _ Hinv).
  pose proof Hstep as H'.
  step_cases H'; prune Hinv; intros Hp; split_lookup Hp i;
    guard_facts Hinv;
    repeat match goal with
    | Hn : no_more_parties _ = false |- _ => apply no_more_parties_false in Hn
    end;
    simpl in *; try done; try (int_arith; lia);
    lock_facts Hinv; destruct p; simpl in *; try done;
    try lock_clash; int_arith; lia.
Qed.

Lemma step_conservation :
  cfg_t c - tank_queue s'
  = total_served s' + Zsum ((fun p => b2z (took_tank p)) <$> workers s')
  /\ cfg_h c - healer_queue s'
  = total_served s' + Zsum ((fun p => b2z (took_healer p)) <$> workers s')
  /\ cfg_d c - dps_queue s'
  = 3 * (total_served s' + Zsum ((fun p => b2z (took_dps p)) <$> workers s')).
Proof using Hvalid Hinv Hstep.
  pose proof (Inv_upper _ _ Hvalid Hinv). pose proof (inv_nonneg _ _ Hinv).
  pose proof (inv_tank _ _ Hinv). pose proof (inv_healer _ _ Hinv).
  pose proof (inv_dps _ _ Hinv). unfold total_served in *.
  pose proof Hstep as H'.
  step_cases H'; prune Hinv; guard_facts Hinv;
    try match goal with
    | Hw : workers _ !! ?i = Some (L63 _), Hx : instances _ !! ?i = Some _ |- _ =>
        pose proof (Inv_served_upper _ _ _ _ _ Hvalid Hinv Hw Hx)
    end;
    sum_insert; simpl in *; int_arith; lia.
Qed.

Lemma step_served i x : instances s' !! i = Some x -> 0 <= parties_served x.
Proof using Hvalid Hinv Hstep.
  pose proof Hstep as H'.
  step_cases H'; prune Hinv; intros Hp; split_lookup Hp i;
    try (exact (inv_served _ _ Hinv _ _ Hp));
    try match goal with
    | Hw : workers _ !! ?i = Some (L63 _), Hx : instances _ !! ?i = Some _ |- _ =>
        pose proof (Inv_served_upper _ _ _ _ _ Hvalid Hinv Hw Hx)
    end;
    repeat match goal with
    | Hx : instances _ !! _ = Some _ |- _ => apply (inv_served _ _ Hinv) in Hx
    end;
    simpl in *; int_arith; lia.
Qed.

Lemma step_rt i p rt :
  workers s' !! i = Some p -> pc_run_time p = Some rt ->
  cfg_t1 c <= rt <= cfg_t2 c.
Proof using Hinv Hstep.
  pose proof Hstep as H'.
  step_cases H'; prune Hinv; intros Hp Hrt; split_lookup Hp i;
    try (exact (inv_rt _ _ Hinv _ _ _ Hp Hrt));
    simpl in Hrt; try discriminate; injection Hrt as <-;
    try match goal with
    | Hw : workers _ !! _ = Some _ |- _ =>
        exact (inv_rt _ _ Hinv _ _ _ Hw eq_refl)
    end.
  rewrite andb_true_iff, !Z.leb_le in *. lia.
Qed.

Lemma step_time i x p :
  instances s' !! i = Some x -> workers s' !! i = Some p ->
  cfg_t1 c * timed_runs p x <= total_time x <= cfg_t2 c * timed_runs p x.
Proof using Hvalid Hinv Hstep.
  pose proof Hstep as H'.
  step_cases H'; prune Hinv; intros Hx Hp;
    try (exact (inv_time _ _ Hinv _ _ _ Hx Hp));
    split_lookup Hp i; split_lookup Hx i;
    try (exact (inv_time _ _ Hinv _ _ _ Hx Hp));
    try match goal with
    | Hw : workers _ !! ?i = Some (L63 _), Hx : instances _ !! ?i = Some _ |- _ =>
        pose proof (Inv_served_upper _ _ _ _ _ Hvalid Hinv Hw Hx)
    end;
    try match goal with
    | Hw : workers _ !! ?i = Some _, Hx : instances _ !! ?i = Some _ |- _ =>
        pose proof (inv_time _ _ Hinv _ _ _ Hx Hw);
        try pose proof (inv_rt _ _ Hinv _ _ _ Hw eq_refl)
    end;
    simpl in *; int_arith; lia.
Qed.

Lemma step_active i x p :
  instances s' !! i = Some x -> workers s' !! i = Some p ->
  is_active x = active_at p.
Proof using Hinv Hstep.
  pose proof Hstep as H'.
  step_cases H'; prune Hinv; intros Hx Hp;
    try (exact (inv_active _ _ Hinv _ _ _ Hx Hp));
    split_lookup Hp i; split_lookup Hx i;
    try (exact (inv_active _ _ Hinv _ _ _ Hx Hp));
    try match goal with
    | Hw : workers _ !! ?i = Some _, Hx : instances _ !! ?i = Some _ |- _ =>
        pose proof (inv_active _ _ Hinv _ _ _ Hx Hw)
    end;
    simpl in *; congruence.
Qed.

Theorem Inv_step : Inv c s'.
Proof using Hvalid Hinv Hstep.
  pose proof step_conservation as (? & ? & ?).
  split; try assumption.
  - exact step_len_w.
  - exact step_len_i.
  - exact step_lock_w.
  - exact step_lock_m.
  - exact step_awake.
  - exact step_nonneg.
  - exact step_guard.
  - exact step_served.
  - exact step_rt.
  - exact step_time.
  - exact step_active.
Qed.
End Preservation.

Theorem Inv_reachable c s : valid_config c -> reachable c s -> Inv c s.
Proof.
  intros Hv Hr. induction Hr as [|s e s' _ IH Hstep].
  - by apply Inv_init.
  - exact (Inv_step c Hv e s s' IH Hstep).
Qed.

Lemma steps_reachable c s s' : reachable c s -> steps c s s' -> reachable c s'.
Proof.
  intros Hr Hs. induction Hs as [|s e s' s'' Hstep _ IH]; [done|].
  apply IH. by eapply reach_step.
Qed.

Lemma run_steps c sch s s' : run c sch s = Some s' -> steps c s s'.
Proof.
  revert s. induction sch as [|e sch IH]; intros s H; simpl in H.
  - injection H as ->. constructor.
  - destruct (exec c e s) as [s1|] eqn:He; [|done].
    eapply steps_cons; eauto.
Qed.

Lemma run_reachable c sch s : run c sch (init c) = Some s -> reachable c s.
Proof. intros H. eapply steps_reachable; [constructor | by eapply run_steps]. Qed.

Lemma step_pool c e s s' :
  valid_config c -> Inv c s -> exec c e s = Some s' ->
  pool s' = pool s
  \/ exists i, e = Run i /\ mtx s = Some (Worker i) /\
      ((workers s !! i = Some L51 /\ 0 < tank_queue s /\
        pool s' = (tank_queue s - 1, healer_queue s, dps_queue s))
       \/ (workers s !! i = Some L52 /\ 0 < healer_queue s /\
        pool s' = (tank_queue s, healer_queue s - 1, dps_queue s))
       \/ (workers s !! i = Some L53 /\ 3 <= dps_queue s /\
        pool s' = (tank_queue s, healer_queue s, dps_queue s - 3))).
Proof.
  intros Hv Hinv H. pose proof (Inv_upper _ _ Hv Hinv).
  step_cases H; prune Hinv; try (left; reflexivity);
    right; eexists; (split; [reflexivity|]);
    guard_facts Hinv; lock_facts Hinv; simpl in *;
    (split; [tauto|]); unfold pool; simpl; int_arith.
  - left. repeat split; try done; lia.
  - right; left. repeat split; try done; lia.
  - right; right. repeat split; try done; lia.
Qed.

Lemma step_pool_le c e s s' :
  valid_config c -> Inv c s -> exec c e s = Some s' ->
  tank_queue s' <= tank_queue s /\ healer_queue s' <= healer_queue s
  /\ dps_queue s' <= dps_queue s.
Proof.
  intros Hv Hinv H.
  destruct (step_pool _ _ _ _ Hv Hinv H) as [Heq|(i & _ & _ & Hd)];
    unfold pool in *.
  - injection Heq as -> -> ->. lia.
  - destruct Hd as [(_ & _ & Heq)|[(_ & _ & Heq)|(_ & _ & Heq)]];
      injection Heq as -> -> ->; lia.
Qed.

(** Once no party can form, none ever can: a counter that blocks the check on
    line 45 is never written again. *)
Lemma step_no_more_parties c e s s' :
  valid_config c -> Inv c s -> exec c e s = Some s' ->
  no_more_parties s = true -> no_more_parties s' = true.
Proof.
  intros Hv Hinv H Ht. pose proof (inv_nonneg _ _ (Inv_step c Hv e s s' Hinv H)).
  pose proof (step_pool_le _ _ _ _ Hv Hinv H). pose proof (inv_nonneg _ _ Hinv).
  rewrite no_more_parties_spec in *. lia.
Qed.

Lemma steps_Inv c s s' : valid_config c -> Inv c s -> steps c s s' -> Inv c s'.
Proof.
  intros Hv Hinv Hs. induction Hs as [|s e s' s'' Hstep _ IH]; [done|].
  apply IH. exact (Inv_step c Hv e s s' Hinv Hstep).
Qed.

(** A worker that has returned stays returned. *)
Lemma step_stopped c e s s' i :
  exec c e s = Some s' -> workers s !! i = Some Stopped ->
  workers s' !! i = Some Stopped.
Proof.
  intros H Hi.
  step_cases H; simpl; try done;
    repeat match goal with
    | |- <[?k:=_]> _ !! i = _ =>
        destruct (decide (k = i)) as [->|?]; [congruence|];
        rewrite list_lookup_insert_ne by done
    end; done.
Qed.

Lemma steps_stopped c s s' i :
  steps c s s' -> workers s !! i = Some Stopped ->
  workers s' !! i = Some Stopped.
Proof.
  intros Hs. induction Hs as [|s e s' s'' Hstep _ IH]; [done|].
  intros Hi. apply IH. by eapply step_stopped.
Qed.

(** The only way into [Stopped] is the [return] on line 46. *)
Lemma step_into_stopped c e s s' i :
  exec c e s = Some s' -> workers s !! i <> Some Stopped ->
  workers s' !! i = Some Stopped ->
  e = Run i /\ workers s !! i = Some L45 /\ no_more_parties s = true
  /\ pool s' = pool s /\ notified s' = notified s.
Proof.
  intros H Hi Hi'.
  step_cases H; simpl in Hi'; try done;
    repeat match type of Hi' with
    | <[?k:=_]> _ !! i = _ =>
        destruct (decide (k = i)) as [->|?];
        [ rewrite list_lookup_insert_eq in Hi'
            by (rewrite ?length_insert; eapply lookup_lt_Some; eauto)
        | rewrite list_lookup_insert_ne in Hi' by done ]
    end; try done; try discriminate.
Qed.

Lemma stopped_terminal c s i :
  valid_config c -> reachable c s -> workers s !! i = Some Stopped ->
  no_more_parties s = true.
Proof.
  intros Hv Hr. induction Hr as [|s e s' Hr IH Hstep]; intros Hi.
  - apply lookup_replicate in Hi as [? _]. done.
  - pose proof (Inv_reachable _ _ Hv Hr) as Hinv.
    destruct (decide (workers s !! i = Some Stopped)) as [Hs|Hs].
    + eapply step_no_more_parties; eauto.
    + destruct (step_into_stopped _ _ _ _ _ Hstep Hs Hi) as (_ & _ & Ht & _).
      eapply step_no_more_parties; eauto.
Qed.

Lemma quiescent_took s :
  quiescent s = true ->
  Zsum ((fun p => b2z (took_tank p)) <$> workers s) = 0
  /\ Zsum ((fun p => b2z (took_healer p)) <$> workers s) = 0
  /\ Zsum ((fun p => b2z (took_dps p)) <$> workers s) = 0.
Proof.
  unfold quiescent. induction (workers s) as [|p l IH]; [done|].
  intros H. simpl in H. apply andb_true_iff in H as [Hp Hl].
  destruct (IH Hl) as (E1 & E2 & E3).
  rewrite !fmap_cons, !Zsum_cons, E1, E2, E3.
  destruct p; simpl in *; done.
Qed.

Lemma all_stopped_quiescent s : all_stopped s = true -> quiescent s = true.
Proof.
  unfold all_stopped, quiescent. induction (workers s) as [|p l IH]; [done|].
  simpl. rewrite !andb_true_iff. intros [Hp Hl]. split; [|auto].
  apply bool_decide_eq_true in Hp as ->. done.
Qed.

Lemma valid_scenarioB : valid_config scenarioB.
Proof. split; reflexivity. Qed.

Lemma reach_stB_mid : reachable scenarioB stB_mid.
Proof. apply (run_reachable _ schB_mid). reflexivity. Qed.

(** C1. In every reachable state of a valid configuration the three queue
    counters are non-negative; a worker that is past the availability check
    of line 45 and has not finished its decrements owns the mutex and still
    finds what it is about to withdraw; and a step changes the counters only
    as line 51, 52 or 53 of the mutex owner. *)
Theorem counters_never_negative c s :
  valid_config c -> reachable c s ->
  (0 <= tank_queue s /\ 0 <= healer_queue s /\ 0 <= dps_queue s)
  /\ (forall i p, workers s !! i = Some p -> p ∈ [L50; L51; L52; L53] ->
        mtx s = Some (Worker i) /\ guard p s)
  /\ (forall e s', exec c e s = Some s' ->
        pool s' = pool s
        \/ exists i, e = Run i /\ mtx s = Some (Worker i) /\
             ((workers s !! i = Some L51 /\ 0 < tank_queue s /\
               pool s' = (tank_queue s - 1, healer_queue s, dps_queue s))
              \/ (workers s !! i = Some L52 /\ 0 < healer_queue s /\
               pool s' = (tank_queue s, healer_queue s - 1, dps_queue s))
              \/ (workers s !! i = Some L53 /\ 3 <= dps_queue s /\
               pool s' = (tank_queue s, healer_queue s, dps_queue s - 3)))).
Proof.
  intros Hv Hr. pose proof (Inv_reachable _ _ Hv Hr) as Hinv.
  split; [exact (inv_nonneg _ _ Hinv)|]. split.
  - intros i p Hp Hin. split; [|exact (inv_guard _ _ Hinv _ _ Hp)].
    apply (inv_lock_w _ _ Hinv _ _ Hp).
    repeat (apply elem_of_cons in Hin as [->|Hin]; [done|]).
    by apply elem_of_nil in Hin.
  - intros e s' H. exact (step_pool _ _ _ _ Hv Hinv H).
Qed.

Lemma counters_never_negative_witness :
  valid_config scenarioB /\ reachable scenarioB stB_mid
  /\ 0 <= tank_queue stB_mid /\ 0 <= healer_queue stB_mid
  /\ 0 <= dps_queue stB_mid.
Proof.
  split; [exact valid_scenarioB|]. split; [exact reach_stB_mid|].
  exact (proj1 (counters_never_negative scenarioB stB_mid
                  valid_scenarioB reach_stB_mid)).
Defined.

(** C3. In every reachable quiescent state, and so at every terminal
    snapshot, what has left each queue is accounted for by the parties
    recorded: one tank, one healer and three dps per party served. *)
Theorem conservation c s :
  valid_config c -> reachable c s ->
  (all_stopped s = true -> quiescent s = true)
  /\ (quiescent s = true ->
      cfg_t c - tank_queue s = total_served s
      /\ cfg_h c - healer_queue s = total_served s
      /\ cfg_d c - dps_queue s = 3 * total_served s).
Proof.
  intros Hv Hr. pose proof (Inv_reachable _ _ Hv Hr) as Hinv.
  split; [apply all_stopped_quiescent|]. intros Hq.
  destruct (quiescent_took _ Hq) as (Ht & Hh & Hd).
  pose proof (inv_tank _ _ Hinv). pose proof (inv_healer _ _ Hinv).
  pose proof (inv_dps _ _ Hinv). lia.
Qed.

Lemma reach_stB_one : reachable scenarioB stB_one.
Proof. apply (run_reachable _ schB_one). reflexivity. Qed.

Lemma conservation_witness :
  quiescent stB_one = true
  /\ cfg_t scenarioB - tank_queue stB_one = total_served stB_one
  /\ cfg_h scenarioB - healer_queue stB_one = total_served stB_one
  /\ cfg_d scenarioB - dps_queue stB_one = 3 * total_served stB_one.
Proof.
  split; [reflexivity|].
  exact (proj2 (conservation scenarioB stB_one valid_scenarioB reach_stB_one)
               eq_refl).
Defined.

(** C4. A worker leaves its loop only through the [return] of line 46, taken
    in a state where [tank_queue == 0 || healer_queue == 0 || dps_queue < 3];
    and whenever a worker is stopped, that condition holds. *)
Theorem no_false_termination c s :
  valid_config c -> reachable c s ->
  (forall e s' i, exec c e s = Some s' ->
     workers s !! i <> Some Stopped -> workers s' !! i = Some Stopped ->
     workers s !! i = Some L45
     /\ (tank_queue s = 0 \/ healer_queue s = 0 \/ dps_queue s < 3))
  /\ (forall i, workers s !! i = Some Stopped ->
        ~ (1 <= tank_queue s /\ 1 <= healer_queue s /\ 3 <= dps_queue s)).
Proof.
  intros Hv Hr. split.
  - intros e s' i H Hi Hi'.
    destruct (step_into_stopped _ _ _ _ _ H Hi Hi') as (_ & Hp & Ht & _).
    split; [done|]. by apply no_more_parties_spec.
  - intros i Hi. pose proof (stopped_terminal _ _ _ Hv Hr Hi) as Ht.
    apply no_more_parties_spec in Ht. lia.
Qed.

Lemma valid_scenarioC : valid_config scenarioC.
Proof. split; reflexivity. Qed.

Lemma reach_stC_one : reachable scenarioC stC_one.
Proof. apply (run_reachable _ [Run 0; Run 0; Run 0]%nat). reflexivity. Qed.

Lemma no_false_termination_witness :
  ~ (1 <= tank_queue stC_one /\ 1 <= healer_queue stC_one
     /\ 3 <= dps_queue stC_one).
Proof.
  exact (proj2 (no_false_termination scenarioC stC_one
                  valid_scenarioC reach_stC_one) 0%nat eq_refl).
Defined.

(** C8. No step increases a queue counter, and the termination condition,
    once true in a reachable state, is true in every state that follows. *)
Theorem termination_condition_monotone c s s' :
  valid_config c -> reachable c s -> steps c s s' ->
  (tank_queue s' <= tank_queue s /\ healer_queue s' <= healer_queue s
   /\ dps_queue s' <= dps_queue s)
  /\ (no_more_parties s = true -> no_more_parties s' = true).
Proof.
  intros Hv Hr Hs. pose proof (Inv_reachable _ _ Hv Hr) as Hinv. clear Hr.
  induction Hs as [|s e s1 s2 Hstep Hs IH]; [split; [lia|done]|].
  pose proof (step_pool_le _ _ _ _ Hv Hinv Hstep).
  pose proof (step_no_more_parties _ _ _ _ Hv Hinv Hstep).
  destruct (IH (Inv_step c Hv e s s1 Hinv Hstep)) as [? ?].
  split; [lia|auto].
Qed.

Lemma valid_scenarioA : valid_config scenarioA.
Proof. split; reflexivity. Qed.

Lemma reach_stA_taken : reachable scenarioA stA_taken.
Proof.
  apply (run_reachable _ [Run 0; Run 0; Run 0; Run 0; Run 0]%nat). reflexivity.
Qed.

Lemma steps_stA_taken_final : steps scenarioA stA_taken stA_final.
Proof. apply (run_steps _ schA_tail). reflexivity. Qed.

Lemma termination_condition_monotone_witness :
  no_more_parties stA_taken = true /\ no_more_parties stA_final = true.
Proof.
  split; [reflexivity|].
  exact (proj2 (termination_condition_monotone scenarioA stA_taken stA_final
                  valid_scenarioA reach_stA_taken steps_stA_taken_final)
               eq_refl).
Defined.

(** C10. The predicate handed to [cv.wait] is true whenever the tank and
    healer counters are non-negative; hence in every reachable state it is
    true, no worker is parked on the condition variable or waking from it,
    and a worker at the wait goes straight on to the check of line 45, which
    decides from the current counters. *)
Theorem wait_never_blocks c s :
  valid_config c -> reachable c s ->
  (forall s0 : state, 0 <= tank_queue s0 -> 0 <= healer_queue s0 ->
     0 <= dps_queue s0 -> wait_pred s0 = true)
  /\ wait_pred s = true
  /\ (forall i p, workers s !! i = Some p -> p <> Parked /\ p <> Woken)
  /\ (forall i, workers s !! i = Some L39 ->
        exec c (Run i) s = Some (set_pc i L45 s)
        /\ exec c (Run i) (set_pc i L45 s)
           = Some (if no_more_parties s
                   then set_pc i Stopped (set_mtx None (set_pc i L45 s))
                   else set_pc i L50 (set_pc i L45 s))).
Proof.
  intros Hv Hr. pose proof (Inv_reachable _ _ Hv Hr) as Hinv.
  destruct (inv_nonneg _ _ Hinv) as (Ht & Hh & Hd).
  split; [intros; by apply wait_pred_nonneg|].
  split; [by apply wait_pred_nonneg|].
  split; [exact (inv_awake _ _ Hinv)|].
  intros i Hi. simpl. unfold run_worker. rewrite Hi.
  rewrite wait_pred_nonneg by done. split; [done|]. simpl.
  rewrite list_lookup_insert_eq by (eapply lookup_lt_Some; eauto).
  change (no_more_parties (set_pc i L45 s)) with (no_more_parties s).
  by destruct (no_more_parties s).
Qed.

Lemma reach_stB_wait : reachable scenarioB stB_wait.
Proof.
  apply (run_reachable _
    [Run 0; Run 0; Run 0; Run 0; Run 0; Run 0; Run 0; Run 0; Draw 0 1;
     Run 1]%nat).
  reflexivity.
Qed.

Lemma wait_never_blocks_witness :
  wait_pred stB_wait = true
  /\ exec scenarioB (Run 1) stB_wait = Some (set_pc 1 L45 stB_wait).
Proof.
  destruct (wait_never_blocks scenarioB stB_wait valid_scenarioB reach_stB_wait)
    as (_ & Hw & _ & Hs).
  split; [exact Hw|]. exact (proj1 (Hs 1%nat eq_refl)).
Defined.

Lemma all_stopped_lookup s i p :
  all_stopped s = true -> workers s !! i = Some p -> p = Stopped.
Proof.
  unfold all_stopped. rewrite forallb_forall. intros H Hi.
  apply list_elem_of_lookup_2, list_elem_of_In, H in Hi.
  by apply bool_decide_eq_true in Hi.
Qed.


Lemma reach_stA_final : reachable scenarioA stA_final.
Proof. apply (run_reachable _ schA). reflexivity. Qed.


Lemma reach_stC_check : reachable scenarioC stC_check.
Proof. apply (run_reachable _ [Run 0; Run 0]%nat). reflexivity. Qed.

(** C7 as claimed fails: in scenario C worker 0 stops without any call of
    [notify_one]. *)
Lemma notify_on_exit_fails : ~ notify_on_exit scenarioC.
Proof.
  intros H.
  specialize (H stC_check 0%nat stC_one reach_stC_check eq_refl eq_refl eq_refl).
  simpl in H. lia.
Qed.

(** The call of [notify_one] is line 68 and nothing else. *)
Lemma step_notified c e s s' :
  exec c e s = Some s' ->
  (notified s' = notified s
   /\ forall i, e = Run i \/ (exists j, e = Wake i j) ->
        workers s !! i <> Some L68)
  \/ (notified s' = S (notified s)
      /\ exists i, workers s !! i = Some L68
           /\ (e = Run i \/ exists j, e = Wake i j)).
Proof.
  intros H.
  step_cases H; simpl;
    try (left; split; [reflexivity|];
         intros k [Hk|[j' Hk]]; simplify_eq; congruence);
    right; (split; [reflexivity|]); eexists; split; eauto.
Qed.

Lemma invalid_input_false c :
  invalid_input c = false <->
  0 < cfg_n c /\ 0 <= cfg_t c /\ 0 <= cfg_h c /\ 0 <= cfg_d c
  /\ 0 <= cfg_t1 c /\ 0 <= cfg_t2 c /\ cfg_t1 c <= cfg_t2 c /\ cfg_t2 c <= 15.
Proof.
  unfold invalid_input.
  rewrite !orb_false_iff, !Z.leb_gt, !Z.ltb_ge. lia.
Qed.

Lemma run_app c sch1 sch2 s :
  run c (sch1 ++ sch2) s
  = match run c sch1 s with Some s' => run c sch2 s' | None => None end.
Proof.
  revert s. induction sch1 as [|e sch1 IH]; intros s; simpl; [done|].
  destruct (exec c e s); [apply IH | done].
Qed.

(** Lines 36, 39, 45 and 46 in a state where no party can form. *)
Lemma run_exit c s i :
  workers s !! i = Some L36 -> mtx s = None ->
  0 <= tank_queue s -> 0 <= healer_queue s -> no_more_parties s = true ->
  run c [Run i; Run i; Run i] s
  = Some (mkState None (tank_queue s) (healer_queue s) (dps_queue s)
            (instances s) (<[i:=Stopped]> (workers s)) (monitor s)
            (notified s) (status_lines s)).
Proof.
  intros Hi Hm Ht Hh Hn.
  assert (Hlt : (i < length (workers s))%nat) by (by eapply lookup_lt_Some).
  simpl. unfold run_worker at 1. rewrite Hi. unfold mtx_free. rewrite Hm.
  unfold run_worker at 1. simpl. rewrite list_lookup_insert_eq by done.
  rewrite (wait_pred_nonneg (set_pc i L39 (set_mtx (Some (Worker i)) s)))
    by done.
  unfold run_worker at 1. simpl.
  rewrite list_lookup_insert_eq by (by rewrite length_insert).
  change (no_more_parties (set_pc i L45 (set_pc i L39 (set_mtx (Some (Worker i)) s))))
    with (no_more_parties s).
  rewrite Hn. unfold set_pc, set_mtx. simpl.
  by rewrite !list_insert_insert_eq.
Qed.

Lemma stopped_prefix_0 c : stopped_prefix c 0 = init c.
Proof. unfold stopped_prefix, init. simpl. by rewrite Nat.sub_0_r. Qed.

Lemma stop_one c k :
  valid_config c -> no_more_parties (init c) = true ->
  (k < Z.to_nat (cfg_n c))%nat ->
  run c [Run k; Run k; Run k] (stopped_prefix c k)
  = Some (stopped_prefix c (S k)).
Proof.
  intros Hv Hn Hk. pose proof (valid_config_bounds _ Hv).
  set (n := Z.to_nat (cfg_n c)) in *.
  assert (Hw : replicate k Stopped ++ replicate (n - k) L36
               = replicate k Stopped ++ L36 :: replicate (n - S k) L36).
  { replace (n - k)%nat with (S (n - S k)) by lia. done. }
  rewrite run_exit; try done; simpl; fold n; try lia.
  - unfold stopped_prefix. fold n. f_equal. f_equal. rewrite Hw.
    replace k with (length (replicate k Stopped) + 0)%nat at 1
      by (rewrite length_replicate; lia).
    rewrite insert_app_r. simpl.
    rewrite cons_middle, app_assoc, <- replicate_S_end. done.
  - rewrite Hw. apply list_lookup_middle. by rewrite length_replicate.
Qed.

Lemma stop_range c k m :
  valid_config c -> no_more_parties (init c) = true ->
  (k + m <= Z.to_nat (cfg_n c))%nat ->
  run c (flat_map (fun i => [Run i; Run i; Run i]) (seq k m))
      (stopped_prefix c k)
  = Some (stopped_prefix c (k + m)).
Proof.
  intros Hv Hn. revert k. induction m as [|m IH]; intros k Hk.
  - simpl. by rewrite Nat.add_0_r.
  - change (seq k (S m)) with (k :: seq (S k) m).
    change (flat_map ?f (k :: ?l)) with (f k ++ flat_map f l).
    rewrite run_app, stop_one by (done || lia).
    rewrite IH by lia. f_equal. f_equal. lia.
Qed.

Lemma forallb_replicate {A} (f : A -> bool) n a :
  f a = true -> forallb f (replicate n a) = true.
Proof. intros H. induction n; simpl; [done|]. by rewrite H. Qed.

Lemma run_stop_all c :
  valid_config c -> no_more_parties (init c) = true ->
  run c (stop_all (Z.to_nat (cfg_n c))) (init c)
  = Some (mkState None (cfg_t c) (cfg_h c) (cfg_d c)
            (replicate (Z.to_nat (cfg_n c)) (mkInstance false 0 0))
            (replicate (Z.to_nat (cfg_n c)) Stopped) MStopped 0 0).
Proof.
  intros Hv Hn. unfold stop_all.
  rewrite run_app, <- stopped_prefix_0, stop_range by (done || lia).
  simpl. unfold run_monitor. simpl.
  change (no_more_parties _) with (no_more_parties (init c)). rewrite Hn.
  unfold all_instances_empty. simpl.
  rewrite forallb_replicate by done. simpl.
  unfold set_monitor, set_mtx. simpl.
  by rewrite Nat.sub_diag, app_nil_r.
Qed.

Lemma terminal_start_inv c s :
  valid_config c -> no_more_parties (init c) = true -> reachable c s ->
  pool s = pool (init c) /\ instances s = instances (init c)
  /\ (forall i p, workers s !! i = Some p -> on_exit_path p = true).
Proof.
  intros Hv Hn Hr. induction Hr as [|s e s' Hr IH Hstep].
  - repeat split. intros i p [-> _]%lookup_replicate. done.
  - pose proof (Inv_reachable _ _ Hv Hr) as Hinv.
    destruct IH as (Hp & Hi & Hw).
    assert (Hn' : no_more_parties s = true).
    { unfold no_more_parties, pool in *. injection Hp as -> -> ->. done. }
    step_cases Hstep; prune Hinv;
      try match goal with
      | H : workers _ !! _ = Some _ |- _ => apply Hw in H; discriminate H
      end;
      try congruence;
      (split; [exact Hp|]); (split; [exact Hi|]);
      try exact Hw;
      intros j q Hq; split_lookup Hq j; try done; by eapply Hw.
Qed.

Lemma run_cons c e sch s s1 :
  exec c e s = Some s1 -> run c (e :: sch) s = run c sch s1.
Proof. intros H. simpl. by rewrite H. Qed.

(** While a worker owns the mutex, no other thread writes the queues or the
    instance records. *)
Lemma step_frame c e s s' t :
  Inv c s -> mtx s = Some t -> exec c e s = Some s' -> actor e <> t ->
  pool s' = pool s /\ instances s' = instances s.
Proof.
  intros Hinv Hm H Ha.
  step_cases H; prune Hinv; try (split; reflexivity);
    lock_facts Hinv; simpl in *; exfalso;
    try match goal with
    | H1 : true = true <-> _ = _ |- _ =>
        assert (mtx s = Some (Worker i)) by (apply H1; reflexivity)
    end; try congruence.
Qed.

(** Lines 39 to 53 when a party can form. *)
Lemma run_reserve c s i :
  valid_config c -> Inv c s -> workers s !! i = Some L39 ->
  1 <= tank_queue s -> 1 <= healer_queue s -> 3 <= dps_queue s ->
  exists x, instances s !! i = Some x /\
    run c (replicate 6 (Run i)) s
    = Some (mkState (mtx s) (tank_queue s - 1) (healer_queue s - 1)
              (dps_queue s - 3)
              (<[i:=mkInstance true (parties_served x) (total_time x)]>
                 (instances s))
              (<[i:=L55]> (workers s)) (monitor s) (notified s)
              (status_lines s)).
Proof.
  intros Hv Hinv Hi Ht Hh Hd. pose proof (Inv_upper _ _ Hv Hinv).
  assert (Hlt : (i < length (workers s))%nat) by (by eapply lookup_lt_Some).
  assert (Hx : is_Some (instances s !! i)).
  { apply lookup_lt_is_Some. rewrite (inv_len_i _ _ Hinv), <- (inv_len_w _ _ Hinv). done. }
  destruct Hx as [x Hx]. exists x. split; [done|].
  assert (Hn : no_more_parties s = false) by (apply no_more_parties_false; lia).
  simpl replicate.
  erewrite run_cons;
    [|simpl; unfold run_worker; rewrite Hi, wait_pred_nonneg by lia; reflexivity].
  erewrite run_cons;
    [|simpl; unfold run_worker; simpl; rewrite list_lookup_insert_eq by done;
      change (no_more_parties (set_pc i L45 s)) with (no_more_parties s);
      rewrite Hn; reflexivity].
  erewrite run_cons;
    [|simpl; unfold run_worker; simpl;
      rewrite list_lookup_insert_eq by (by rewrite !length_insert);
      rewrite Hx; reflexivity].
  do 3 (erewrite run_cons;
    [|simpl; unfold run_worker; simpl;
      rewrite list_lookup_insert_eq by (by rewrite !length_insert);
      reflexivity]).
  simpl. int_arith. f_equal. destruct s; simpl in *.
  unfold set_pc, set_dps; simpl. unfold set_pc, set_healer; simpl.
  unfold set_pc, set_tank; simpl. unfold set_pc, set_instance; simpl.
  unfold set_pc; simpl. by rewrite !list_insert_insert_eq.
Qed.

(** Lines 39 to 46 when no party can form. *)
Lemma run_refuse c s i :
  workers s !! i = Some L39 ->
  0 <= tank_queue s -> 0 <= healer_queue s -> no_more_parties s = true ->
  run c [Run i; Run i] s
  = Some (mkState None (tank_queue s) (healer_queue s) (dps_queue s)
            (instances s) (<[i:=Stopped]> (workers s)) (monitor s)
            (notified s) (status_lines s)).
Proof.
  intros Hi Ht Hh Hn.
  assert (Hlt : (i < length (workers s))%nat) by (by eapply lookup_lt_Some).
  erewrite run_cons;
    [|simpl; unfold run_worker; rewrite Hi, wait_pred_nonneg by lia; reflexivity].
  erewrite run_cons;
    [|simpl; unfold run_worker; simpl; rewrite list_lookup_insert_eq by done;
      change (no_more_parties (set_pc i L45 s)) with (no_more_parties s);
      rewrite Hn; reflexivity].
  simpl. unfold set_pc, set_mtx. simpl. by rewrite list_insert_insert_eq.
Qed.

(** C2. A worker that has entered the wait of line 39 owns the mutex.  If
    one tank, one healer and three dps are there, its next six statements
    take exactly these from the queues and leave it at line 55 with the
    party formed, still owning the mutex; otherwise the termination
    condition holds, its next two statements leave queues and instance
    records as they are, release the mutex and stop the worker, which stays
    stopped in every later state.  While a worker owns the mutex no step of
    another thread changes the queues or the instance records. *)
Theorem reservation c s i :
  valid_config c -> reachable c s -> workers s !! i = Some L39 ->
  mtx s = Some (Worker i)
  /\ (1 <= tank_queue s /\ 1 <= healer_queue s /\ 3 <= dps_queue s ->
      exists s', run c (replicate 6 (Run i)) s = Some s'
        /\ tank_queue s' = tank_queue s - 1
        /\ healer_queue s' = healer_queue s - 1
        /\ dps_queue s' = dps_queue s - 3
        /\ workers s' !! i = Some L55 /\ mtx s' = Some (Worker i)
        /\ is_active <$> instances s' !! i = Some true)
  /\ (~ (1 <= tank_queue s /\ 1 <= healer_queue s /\ 3 <= dps_queue s) ->
      (tank_queue s = 0 \/ healer_queue s = 0 \/ dps_queue s < 3)
      /\ exists s', run c [Run i; Run i] s = Some s'
        /\ pool s' = pool s /\ instances s' = instances s
        /\ workers s' !! i = Some Stopped /\ mtx s' = None
        /\ forall s'', steps c s' s'' -> workers s'' !! i = Some Stopped)
  /\ (forall s1 e s2, reachable c s1 -> mtx s1 = Some (Worker i) ->
        exec c e s1 = Some s2 -> actor e <> Worker i ->
        pool s2 = pool s1 /\ instances s2 = instances s1).
Proof.
  intros Hv Hr Hi. pose proof (Inv_reachable _ _ Hv Hr) as Hinv.
  assert (Hm : mtx s = Some (Worker i))
    by (apply (inv_lock_w _ _ Hinv _ _ Hi); reflexivity).
  assert (Hlt : (i < length (workers s))%nat) by (by eapply lookup_lt_Some).
  destruct (inv_nonneg _ _ Hinv) as (Ht & Hh & Hd).
  split; [done|]. split; [|split].
  - intros (H1 & H2 & H3).
    destruct (run_reserve _ _ _ Hv Hinv Hi H1 H2 H3) as (x & Hx & Hrun).
    eexists. split; [exact Hrun|]. simpl. repeat split; try done.
    + by apply list_lookup_insert_eq.
    + rewrite list_lookup_insert_eq by (by eapply lookup_lt_Some). done.
  - intros Hno.
    assert (Hn : tank_queue s = 0 \/ healer_queue s = 0 \/ dps_queue s < 3) by lia.
    split; [done|]. apply no_more_parties_spec in Hn.
    eexists. split; [by apply run_refuse|]. simpl. repeat split.
    + by apply list_lookup_insert_eq.
    + intros s'' Hs. eapply steps_stopped; [exact Hs|].
      simpl. by apply list_lookup_insert_eq.
  - intros s1 e s2 Hr1 Hm1 He Ha.
    exact (step_frame _ _ _ _ _ (Inv_reachable _ _ Hv Hr1) Hm1 He Ha).
Qed.

Lemma reservation_witness :
  exists s', run scenarioB (replicate 6 (Run 1)) stB_wait = Some s'
    /\ tank_queue s' = tank_queue stB_wait - 1
    /\ healer_queue s' = healer_queue stB_wait - 1
    /\ dps_queue s' = dps_queue stB_wait - 3
    /\ workers s' !! 1%nat = Some L55 /\ mtx s' = Some (Worker 1)
    /\ is_active <$> instances s' !! 1%nat = Some true.
Proof.
  apply (proj1 (proj2 (reservation scenarioB stB_wait 1
                         valid_scenarioB reach_stB_wait eq_refl))).
  simpl. lia.
Defined.

(** * Further properties of the program *)

(** The mutex is owned by a thread that exists. *)
Lemma owner_exists c s i :
  valid_config c -> reachable c s -> mtx s = Some (Worker i) ->
  is_Some (workers s !! i).
Proof.
  intros Hv Hr. revert i. induction Hr as [|s e s' Hr IH Hstep]; intros k Hm.
  - discriminate Hm.
  - pose proof (Inv_reachable _ _ Hv Hr) as Hinv.
    step_cases Hstep; prune Hinv; simpl in *; simplify_eq;
      try (apply lookup_lt_is_Some; rewrite ?length_insert;
           first [ by eapply lookup_lt_Some
                 | by apply lookup_lt_is_Some, IH ]).
Qed.

(** X1. Mutual exclusion.  In a reachable state at most one thread is inside a
    critical section: two workers at statements executed under the mutex
    are the same worker, and while the status thread is at its scan no
    worker is at such a statement.  The mutex is free exactly when nobody
    is. *)
Theorem mutual_exclusion c s :
  valid_config c -> reachable c s ->
  (forall i j p q, workers s !! i = Some p -> workers s !! j = Some q ->
     holds_lock p = true -> holds_lock q = true -> i = j)
  /\ (monitor s = M99 ->
      forall i p, workers s !! i = Some p -> holds_lock p = false)
  /\ (mtx s = None <->
      monitor s <> M99
      /\ forall i p, workers s !! i = Some p -> holds_lock p = false).
Proof.
  intros Hv Hr. pose proof (Inv_reachable _ _ Hv Hr) as Hinv.
  pose proof (inv_lock_m _ _ Hinv) as Hm. split; [|split].
  - intros i j p q Hp Hq Hlp Hlq.
    apply (inv_lock_w _ _ Hinv _ _ Hp) in Hlp.
    apply (inv_lock_w _ _ Hinv _ _ Hq) in Hlq. congruence.
  - intros HM i p Hp. apply Hm in HM.
    destruct (holds_lock p) eqn:Hl; [|done].
    apply (inv_lock_w _ _ Hinv _ _ Hp) in Hl. congruence.
  - split.
    + intros Hfree. split; [intros HM; apply Hm in HM; congruence|].
      intros i p Hp. destruct (holds_lock p) eqn:Hl; [|done].
      apply (inv_lock_w _ _ Hinv _ _ Hp) in Hl. congruence.
    + intros [HM Hw]. destruct (mtx s) as [[i|]|] eqn:Ho; [| |done].
      * destruct (owner_exists _ _ _ Hv Hr Ho) as [p Hp].
        pose proof (Hw _ _ Hp) as Hl.
        apply (inv_lock_w _ _ Hinv _ _ Hp) in Ho. congruence.
      * exfalso. by apply HM, Hm.
Qed.

Lemma mutual_exclusion_witness :
  valid_config scenarioB /\ reachable scenarioB stB_mid
  /\ mtx stB_mid <> None /\ holds_lock (L59 1) = false.
Proof.
  split; [exact valid_scenarioB|]. split; [exact reach_stB_mid|].
  destruct (mutual_exclusion scenarioB stB_mid valid_scenarioB reach_stB_mid)
    as (_ & _ & H).
  split.
  - intros Hfree. apply H in Hfree as [_ Hw].
    specialize (Hw 1%nat L52 eq_refl). discriminate Hw.
  - reflexivity.
Defined.

(** Every worker has its instance record: [instances[instance_id]] on lines
    50 and 63-65 is always within the vector. *)
Lemma instance_exists c s i p :
  Inv c s -> workers s !! i = Some p -> is_Some (instances s !! i).
Proof.
  intros Hinv Hp. apply lookup_lt_is_Some.
  rewrite (inv_len_i _ _ Hinv), <- (inv_len_w _ _ Hinv).
  by eapply lookup_lt_Some.
Qed.

(** X2. The vector of instances and the set of workers keep the size [n] given
    to the constructor, every worker finds its own record, and the record's
    [is_active] flag is set exactly while the worker is between line 50 and
    line 65, so [printLiveStatus] sees "Active" exactly for the instances
    that hold a party. *)
Theorem active_flag_tracks_party c s :
  valid_config c -> reachable c s ->
  length (instances s) = Z.to_nat (cfg_n c)
  /\ length (workers s) = Z.to_nat (cfg_n c)
  /\ (forall i p, workers s !! i = Some p ->
        exists x, instances s !! i = Some x /\ is_active x = active_at p)
  /\ (all_instances_empty s = true <->
      forall i p, workers s !! i = Some p -> active_at p = false).
Proof.
  intros Hv Hr. pose proof (Inv_reachable _ _ Hv Hr) as Hinv.
  split; [exact (inv_len_i _ _ Hinv)|]. split; [exact (inv_len_w _ _ Hinv)|].
  assert (Hex : forall i p, workers s !! i = Some p ->
            exists x, instances s !! i = Some x /\ is_active x = active_at p).
  { intros i p Hp. destruct (instance_exists _ _ _ _ Hinv Hp) as [x Hx].
    exists x. split; [done|]. exact (inv_active _ _ Hinv _ _ _ Hx Hp). }
  split; [exact Hex|]. unfold all_instances_empty. rewrite forallb_forall.
  split.
  - intros Hall i p Hp. destruct (Hex _ _ Hp) as (x & Hx & <-).
    apply list_elem_of_lookup_2, list_elem_of_In, Hall in Hx.
    by destruct (is_active x).
  - intros Hall x Hx. apply list_elem_of_In, list_elem_of_lookup in Hx as [i Hx].
    assert (Hp : is_Some (workers s !! i)).
    { apply lookup_lt_is_Some. rewrite (inv_len_w _ _ Hinv), <- (inv_len_i _ _ Hinv).
      by eapply lookup_lt_Some. }
    destruct Hp as [p Hp].
    rewrite (inv_active _ _ Hinv _ _ _ Hx Hp), (Hall _ _ Hp). done.
Qed.

Lemma active_flag_tracks_party_witness :
  exists x, instances stB_mid !! 0%nat = Some x
    /\ is_active x = active_at (L59 1).
Proof.
  exact (proj1 (proj2 (proj2 (active_flag_tracks_party scenarioB stB_mid
                  valid_scenarioB reach_stB_mid))) 0%nat (L59 1) eq_refl).
Defined.

(** X3. No arithmetic statement of [runDungeon] overflows: in every reachable
    state the three queues lie between 0 and their initial values, every
    [parties_served] lies between 0 and the initial number of tanks, and the
    32-bit results of lines 51, 52, 53 and 63 are the exact differences and
    sum. *)
Theorem no_int_overflow c s :
  valid_config c -> reachable c s ->
  (0 <= tank_queue s <= cfg_t c /\ 0 <= healer_queue s <= cfg_h c
   /\ 0 <= dps_queue s <= cfg_d c)
  /\ (cfg_t c <= INT_MAX /\ cfg_h c <= INT_MAX /\ cfg_d c <= INT_MAX)
  /\ (forall i x, instances s !! i = Some x ->
        0 <= parties_served x <= cfg_t c)
  /\ (forall i, workers s !! i = Some L51 ->
        int_sub (tank_queue s) 1 = tank_queue s - 1)
  /\ (forall i, workers s !! i = Some L52 ->
        int_sub (healer_queue s) 1 = healer_queue s - 1)
  /\ (forall i, workers s !! i = Some L53 ->
        int_sub (dps_queue s) 3 = dps_queue s - 3)
  /\ (forall i rt x, workers s !! i = Some (L63 rt) ->
        instances s !! i = Some x ->
        int_add (parties_served x) 1 = parties_served x + 1).
Proof.
  intros Hv Hr. pose proof (Inv_reachable _ _ Hv Hr) as Hinv.
  pose proof (Inv_upper _ _ Hv Hinv). pose proof (inv_nonneg _ _ Hinv).
  pose proof (took_sums_nonneg s). pose proof (inv_tank _ _ Hinv).
  split; [lia|]. split; [lia|]. split; [|repeat split].
  - intros i x Hx. pose proof (inv_served _ _ Hinv _ _ Hx).
    assert (parties_served x <= total_served s).
    { apply (Zsum_lookup_le parties_served _ i); [|done].
      intros j y Hj. exact (inv_served _ _ Hinv _ _ Hj). }
    lia.
  - intros i Hi. pose proof (inv_guard _ _ Hinv _ _ Hi). simpl in *.
    int_arith. lia.
  - intros i Hi. pose proof (inv_guard _ _ Hinv _ _ Hi). simpl in *.
    int_arith. lia.
  - intros i Hi. pose proof (inv_guard _ _ Hinv _ _ Hi). simpl in *.
    int_arith. lia.
  - intros i rt x Hi Hx.
    pose proof (Inv_served_upper _ _ _ _ _ Hv Hinv Hi Hx).
    int_arith. lia.
Qed.

Lemma no_int_overflow_witness :
  int_sub (healer_queue stB_mid) 1 = healer_queue stB_mid - 1.
Proof.
  exact (proj1 (proj2 (proj2 (proj2 (proj2 (no_int_overflow scenarioB stB_mid
           valid_scenarioB reach_stB_mid))))) 1%nat eq_refl).
Defined.

(** X4. Busy time.  Every drawn [run_time] lies between [min_time] and
    [max_time]; outside the gap between line 63 and line 64 an instance's
    [total_time] lies between [min_time] and [max_time] times its
    [parties_served], hence is at most 15 seconds per party, and equals
    [min_time * parties_served] when the two bounds coincide. *)
Theorem busy_time_bounds c s i x p :
  valid_config c -> reachable c s ->
  instances s !! i = Some x -> workers s !! i = Some p ->
  (forall rt, pc_run_time p = Some rt -> cfg_t1 c <= rt <= cfg_t2 c)
  /\ ((forall rt, p <> L64 rt) ->
      cfg_t1 c * parties_served x <= total_time x <= cfg_t2 c * parties_served x
      /\ 0 <= total_time x <= 15 * parties_served x
      /\ (cfg_t1 c = cfg_t2 c -> total_time x = cfg_t1 c * parties_served x)).
Proof.
  intros Hv Hr Hx Hp. pose proof (Inv_reachable _ _ Hv Hr) as Hinv.
  pose proof (valid_config_bounds _ Hv).
  split; [intros rt Hrt; exact (inv_rt _ _ Hinv _ _ _ Hp Hrt)|].
  intros Hne. pose proof (inv_time _ _ Hinv _ _ _ Hx Hp) as Ht.
  pose proof (inv_served _ _ Hinv _ _ Hx).
  assert (timed_runs p x = parties_served x) as Hk
    by (destruct p; try done; by destruct (Hne run_time)).
  rewrite Hk in Ht. split; [done|]. split; [nia|]. intros Heq.
  rewrite <- Heq in Ht. lia.
Qed.

Lemma busy_time_bounds_witness :
  total_time (mkInstance false 1 1) = cfg_t1 scenarioB * 1.
Proof.
  refine (proj2 (proj2 (proj2 (busy_time_bounds scenarioB stB_one 0%nat
            (mkInstance false 1 1) L36 valid_scenarioB reach_stB_one
            eq_refl eq_refl) _)) eq_refl).
  intros rt. discriminate.
Defined.

(** X5. The final report.  When every worker has returned, the parties served
    over all instances number exactly min(T, H, D div 3), and the queues
    hold what is left after withdrawing that many parties. *)
Theorem parties_formed_exact c s :
  valid_config c -> reachable c s -> all_stopped s = true ->
  total_served s = Z.min (cfg_t c) (Z.min (cfg_h c) (cfg_d c / 3))
  /\ tank_queue s = cfg_t c - total_served s
  /\ healer_queue s = cfg_h c - total_served s
  /\ dps_queue s = cfg_d c - 3 * total_served s
  /\ no_more_parties s = true.
Proof.
  intros Hv Hr Hs. pose proof (Inv_reachable _ _ Hv Hr) as Hinv.
  pose proof (valid_config_bounds _ Hv) as Hb.
  destruct (quiescent_took _ (all_stopped_quiescent _ Hs)) as (E1 & E2 & E3).
  pose proof (inv_tank _ _ Hinv) as H1. pose proof (inv_healer _ _ Hinv) as H2.
  pose proof (inv_dps _ _ Hinv) as H3. rewrite E1 in H1. rewrite E2 in H2.
  rewrite E3 in H3. pose proof (inv_nonneg _ _ Hinv).
  assert (Hw : is_Some (workers s !! 0%nat)).
  { apply lookup_lt_is_Some. rewrite (inv_len_w _ _ Hinv). lia. }
  destruct Hw as [p Hp]. pose proof (all_stopped_lookup _ _ _ Hs Hp) as ->.
  pose proof (stopped_terminal _ _ _ Hv Hr Hp) as Ht.
  split; [|repeat split; try lia; done].
  apply no_more_parties_spec in Ht.
  pose proof (Z.div_mod (cfg_d c) 3 ltac:(lia)).
  pose proof (Z.mod_pos_bound (cfg_d c) 3 ltac:(lia)). lia.
Qed.

Lemma parties_formed_exact_witness :
  total_served stA_final
  = Z.min (cfg_t scenarioA) (Z.min (cfg_h scenarioA) (cfg_d scenarioA / 3)).
Proof.
  exact (proj1 (parties_formed_exact scenarioA stA_final valid_scenarioA
                  reach_stA_final eq_refl)).
Defined.

Lemma rank_nonneg p : 0 <= rank p.
Proof. destruct p; simpl; lia. Qed.

Lemma work_left_nonneg c s : Inv c s -> 0 <= work_left s.
Proof.
  intros Hinv. pose proof (inv_nonneg _ _ Hinv).
  assert (0 <= Zsum (rank <$> workers s))
    by (apply Zsum_nonneg; intros; apply rank_nonneg).
  unfold work_left. lia.
Qed.

(** Every statement of a worker uses up work; the status thread uses none. *)
Lemma step_work_left c e s s' :
  valid_config c -> Inv c s -> exec c e s = Some s' ->
  if is_worker_event e then work_left s' < work_left s
  else work_left s' = work_left s.
Proof.
  intros Hv Hinv H. pose proof (Inv_upper _ _ Hv Hinv).
  pose proof (inv_nonneg _ _ Hinv). unfold work_left.
  step_cases H; prune Hinv; guard_facts Hinv; simpl; try done;
    repeat match goal with
    | Hp : ?l !! ?i = Some ?x |- context [Zsum (?f <$> <[?i:=?y]> ?l)] =>
        rewrite (Zsum_insert f l i x y Hp)
    end; simpl in *; int_arith; lia.
Qed.

Lemma run_work_left c sch s s' :
  valid_config c -> Inv c s -> run c sch s = Some s' ->
  Z.of_nat (worker_events sch) + work_left s' <= work_left s.
Proof.
  intros Hv. revert s. induction sch as [|e sch IH]; intros s Hinv H.
  - simpl in H. injection H as ->. change (worker_events []) with 0%nat. lia.
  - simpl in H. destruct (exec c e s) as [s1|] eqn:He; [|done].
    pose proof (step_work_left _ _ _ _ Hv Hinv He) as Hd.
    pose proof (IH _ (Inv_step c Hv e s s1 Hinv He) H) as Hle.
    unfold worker_events in *. rewrite filter_cons.
    destruct e; simpl in *; try lia.
Qed.

(** X6. Bounded work.  Along any execution from the initial state the workers
    together execute at most [17 * T + 5 * N] statements: no interleaving
    lets [runDungeon] loop for ever. *)
Theorem worker_steps_bounded c sch s :
  valid_config c -> run c sch (init c) = Some s ->
  Z.of_nat (worker_events sch) <= 17 * cfg_t c + 5 * cfg_n c.
Proof.
  intros Hv H. pose proof (valid_config_bounds _ Hv).
  pose proof (run_work_left _ _ _ _ Hv (Inv_init _ Hv) H) as Hle.
  pose proof (work_left_nonneg c s
                (Inv_reachable _ _ Hv (run_reachable _ _ _ H))).
  assert (work_left (init c) = 17 * cfg_t c + 5 * cfg_n c).
  { unfold work_left. simpl.
    assert (forall n, Zsum (rank <$> replicate n L36) = 5 * Z.of_nat n) as ->.
    { induction n as [|n IHn]; [done|].
      rewrite replicate_S, fmap_cons, Zsum_cons, IHn. simpl. lia. }
    lia. }
  lia.
Qed.

Lemma run_schA : run scenarioA schA (init scenarioA) = Some stA_final.
Proof. vm_compute. reflexivity. Qed.

Lemma worker_steps_bounded_witness :
  Z.of_nat (worker_events schA) <= 17 * cfg_t scenarioA + 5 * cfg_n scenarioA.
Proof.
  exact (worker_steps_bounded scenarioA schA stA_final valid_scenarioA
           run_schA).
Defined.

Lemma none_parked_true c s : Inv c s -> none_parked s = true.
Proof.
  intros Hinv. unfold none_parked. rewrite forallb_forall. intros p Hp.
  apply list_elem_of_In, list_elem_of_lookup in Hp as [i Hp].
  destruct (inv_awake _ _ Hinv _ _ Hp) as [Hne _].
  by rewrite bool_decide_eq_false_2.
Qed.

Lemma all_stopped_false s :
  all_stopped s = false ->
  exists i p, workers s !! i = Some p /\ p <> Stopped.
Proof.
  unfold all_stopped. induction (workers s) as [|q l IH]; [done|].
  simpl. intros H. apply andb_false_iff in H as [H|H].
  - exists 0%nat, q. split; [done|]. by apply bool_decide_eq_false in H.
  - destruct (IH H) as (i & p & Hp & Hne). by exists (S i), p.
Qed.

(** The mutex is free when the status thread is not scanning and no worker
    is at a statement executed under the mutex. *)
Lemma mtx_free_when_idle c s :
  valid_config c -> reachable c s -> monitor s <> M99 ->
  (forall i p, workers s !! i = Some p -> holds_lock p = false) ->
  mtx s = None.
Proof.
  intros Hv Hr HM Hw. pose proof (Inv_reachable _ _ Hv Hr) as Hinv.
  destruct (mtx s) as [[i|]|] eqn:Ho; [| |done].
  - destruct (owner_exists _ _ _ Hv Hr Ho) as [p Hp].
    pose proof (Hw _ _ Hp) as Hl.
    apply (inv_lock_w _ _ Hinv _ _ Hp) in Ho. congruence.
  - exfalso. by apply HM, (inv_lock_m _ _ Hinv).
Qed.

(** Unless the status thread is inside its scan, a worker that has not
    returned can execute a statement. *)
Lemma progress_worker c s :
  valid_config c -> reachable c s -> monitor s <> M99 ->
  all_stopped s = false ->
  exists e s', is_worker_event e = true /\ exec c e s = Some s'.
Proof.
  intros Hv Hr HM Hs. pose proof (Inv_reachable _ _ Hv Hr) as Hinv.
  pose proof (valid_config_bounds _ Hv) as Hb.
  destruct (mtx s) as [[i|]|] eqn:Ho.
  - destruct (owner_exists _ _ _ Hv Hr Ho) as [p Hp].
    destruct (instance_exists _ _ _ _ Hinv Hp) as [x Hx].
    pose proof (proj2 (inv_lock_w _ _ Hinv _ _ Hp) Ho) as Hl.
    pose proof (none_parked_true _ _ Hinv) as Hnp.
    exists (Run i). simpl. unfold run_worker. rewrite Hp.
    destruct p; try discriminate Hl; rewrite ?Hx, ?Hnp;
      try (eexists; split; [done|reflexivity]).
    + destruct (wait_pred s); eexists; (split; [done|reflexivity]).
    + destruct (no_more_parties s); eexists; (split; [done|reflexivity]).
  - exfalso. by apply HM, (inv_lock_m _ _ Hinv).
  - destruct (all_stopped_false _ Hs) as (i & p & Hp & Hne).
    destruct (inv_awake _ _ Hinv _ _ Hp) as [Hnp Hnw].
    assert (Hl : holds_lock p = false).
    { destruct (holds_lock p) eqn:Hl; [|done].
      apply (inv_lock_w _ _ Hinv _ _ Hp) in Hl. congruence. }
    destruct p; try discriminate Hl; try done.
    + exists (Run i). simpl. unfold run_worker, mtx_free. rewrite Hp, Ho.
      eexists; split; [done|reflexivity].
    + exists (Draw i (cfg_t1 c)). simpl. rewrite Hp.
      replace ((cfg_t1 c <=? cfg_t1 c) && (cfg_t1 c <=? cfg_t2 c)) with true
        by (symmetry; apply andb_true_iff; rewrite !Z.leb_le; lia).
      eexists; split; [done|reflexivity].
    + exists (Run i). simpl. unfold run_worker. rewrite Hp.
      eexists; split; [done|reflexivity].
    + exists (Run i). simpl. unfold run_worker, mtx_free. rewrite Hp, Ho.
      eexists; split; [done|reflexivity].
Qed.

Lemma all_stopped_empty c s :
  Inv c s -> all_stopped s = true -> all_instances_empty s = true.
Proof.
  intros Hinv Hs. unfold all_instances_empty. rewrite forallb_forall.
  intros x Hx. apply list_elem_of_In, list_elem_of_lookup in Hx as [i Hx].
  assert (Hp : is_Some (workers s !! i)).
  { apply lookup_lt_is_Some. rewrite (inv_len_w _ _ Hinv), <- (inv_len_i _ _ Hinv).
    by eapply lookup_lt_Some. }
  destruct Hp as [p Hp]. pose proof (all_stopped_lookup _ _ _ Hs Hp) as ->.
  by rewrite (inv_active _ _ Hinv _ _ _ Hx Hp).
Qed.

Lemma all_stopped_terminal c s :
  valid_config c -> reachable c s -> all_stopped s = true ->
  no_more_parties s = true.
Proof.
  intros Hv Hr Hs. pose proof (Inv_reachable _ _ Hv Hr) as Hinv.
  pose proof (valid_config_bounds _ Hv).
  assert (Hw : is_Some (workers s !! 0%nat)).
  { apply lookup_lt_is_Some. rewrite (inv_len_w _ _ Hinv). lia. }
  destruct Hw as [p Hp]. pose proof (all_stopped_lookup _ _ _ Hs Hp) as ->.
  exact (stopped_terminal _ _ _ Hv Hr Hp).
Qed.

Lemma all_stopped_no_lock s i p :
  all_stopped s = true -> workers s !! i = Some p -> holds_lock p = false.
Proof. intros Hs Hp. by rewrite (all_stopped_lookup _ _ _ Hs Hp). Qed.

(** Once the workers have returned, the status thread returns within three
    of its statements. *)
Lemma monitor_finish c s :
  valid_config c -> reachable c s -> all_stopped s = true ->
  exists sch s', run c sch s = Some s' /\ finished s' = true
    /\ instances s' = instances s /\ pool s' = pool s.
Proof.
  intros Hv Hr Hs. pose proof (Inv_reachable _ _ Hv Hr) as Hinv.
  pose proof (all_stopped_terminal _ _ Hv Hr Hs) as Ht.
  pose proof (all_stopped_empty _ _ Hinv Hs) as He.
  assert (Hfin : forall s0, workers s0 = workers s -> monitor s0 = MStopped ->
            finished s0 = true).
  { intros s0 Hw Hm. unfold finished, all_stopped in *. rewrite Hw, Hs, Hm. done. }
  destruct (monitor s) eqn:Hm.
  - assert (Ho : mtx s = None).
    { apply (mtx_free_when_idle c); try done; [congruence|].
      intros i p. by apply all_stopped_no_lock. }
    exists [Mon; Mon; Mon]. eexists. split.
    + simpl. unfold run_monitor at 1. rewrite Hm. simpl.
      unfold run_monitor at 1. simpl. unfold mtx_free. simpl. rewrite Ho.
      unfold run_monitor at 1. simpl.
      change (no_more_parties _) with (no_more_parties s).
      change (all_instances_empty _) with (all_instances_empty s).
      rewrite Ht, He. reflexivity.
    + split; [by apply Hfin|done].
  - assert (Ho : mtx s = None).
    { apply (mtx_free_when_idle c); try done; [congruence|].
      intros i p. by apply all_stopped_no_lock. }
    exists [Mon; Mon]. eexists. split.
    + simpl. unfold run_monitor at 1. rewrite Hm. unfold mtx_free. rewrite Ho.
      unfold run_monitor at 1. simpl.
      change (no_more_parties _) with (no_more_parties s).
      change (all_instances_empty _) with (all_instances_empty s).
      rewrite Ht, He. reflexivity.
    + split; [by apply Hfin|done].
  - exists [Mon]. eexists. split.
    + simpl. unfold run_monitor. rewrite Hm, Ht, He. reflexivity.
    + split; [by apply Hfin|done].
  - exists []. eexists. split; [reflexivity|]. split; [by apply Hfin|done].
Qed.

(** The status thread leaves its scan in one statement, which no worker
    notices. *)
Lemma leave_scan c s :
  all_stopped s = false ->
  exists pre s0, run c pre s = Some s0 /\ monitor s0 <> M99
    /\ all_stopped s0 = false /\ work_left s0 = work_left s.
Proof.
  intros Hs. destruct (monitor s) eqn:Hm;
    try (exists [], s; repeat split; [congruence|done]).
  exists [Mon]. simpl. unfold run_monitor. rewrite Hm.
  destruct (no_more_parties s && all_instances_empty s);
    eexists; (split; [reflexivity|]); (split; [discriminate|]); done.
Qed.

(** From any reachable state some schedule lets every worker return. *)
Lemma workers_finish c n s :
  valid_config c -> reachable c s -> work_left s <= Z.of_nat n ->
  exists sch s', run c sch s = Some s' /\ all_stopped s' = true.
Proof.
  intros Hv. revert s. induction n as [|n IH]; intros s Hr Hle;
    (destruct (all_stopped s) eqn:Hs; [by exists [], s|]);
    destruct (leave_scan c _ Hs) as (pre & s0 & Hpre & HM0 & Hs0 & Hw0);
    assert (Hr0 : reachable c s0)
      by (eapply steps_reachable; [exact Hr | by eapply run_steps]);
    destruct (progress_worker _ _ Hv Hr0 HM0 Hs0) as (e & s1 & He & Hstep);
    pose proof (step_work_left _ _ _ _ Hv (Inv_reachable _ _ Hv Hr0) Hstep) as Hd;
    rewrite He in Hd;
    assert (Hr1 : reachable c s1) by (by eapply reach_step);
    pose proof (work_left_nonneg _ _ (Inv_reachable _ _ Hv Hr1)).
  - lia.
  - destruct (IH s1 Hr1 ltac:(lia)) as (sch & s' & Hrun & Hfin).
    exists (pre ++ e :: sch), s'. split; [|done].
    rewrite run_app, Hpre. simpl. by rewrite Hstep.
Qed.

(** X7. Deadlock freedom.  In a reachable state some thread can execute a
    statement unless every worker and the status thread have returned, and
    then none can. *)
Theorem deadlock_free c s :
  valid_config c -> reachable c s ->
  (finished s = false -> exists e s', exec c e s = Some s')
  /\ (finished s = true -> forall e, exec c e s = None).
Proof.
  intros Hv Hr. split.
  - intros Hf. destruct (all_stopped s) eqn:Hs.
    + destruct (monitor_finish _ _ Hv Hr Hs) as ([|e sch] & s' & Hrun & Hfin & _).
      * simpl in Hrun. congruence.
      * simpl in Hrun. destruct (exec c e s) as [s1|] eqn:He; [|done].
        by exists e, s1.
    + destruct (decide (monitor s = M99)) as [HM|HM].
      * exists Mon. simpl. unfold run_monitor. rewrite HM.
        destruct (no_more_parties s && all_instances_empty s); by eexists.
      * destruct (progress_worker _ _ Hv Hr HM Hs) as (e & s1 & _ & He).
        by exists e, s1.
  - intros Hf e. unfold finished in Hf. apply andb_true_iff in Hf as [Hs Hm].
    apply bool_decide_eq_true in Hm.
    assert (Hw : forall i, workers s !! i = Some Stopped \/ workers s !! i = None).
    { intros i. destruct (workers s !! i) as [p|] eqn:Hp; [|by right].
      left. by rewrite (all_stopped_lookup _ _ _ Hs Hp). }
    destruct e as [i|i rt|i j|j|]; simpl; unfold run_worker, run_monitor.
    + by destruct (Hw i) as [-> | ->].
    + by destruct (Hw i) as [-> | ->].
    + by destruct (Hw i) as [-> | ->].
    + by destruct (Hw j) as [-> | ->].
    + by rewrite Hm.
Qed.

Lemma deadlock_free_witness :
  (exists e s', exec scenarioB e stB_mid = Some s')
  /\ exec scenarioA (Run 0) stA_final = None.
Proof.
  split.
  - exact (proj1 (deadlock_free scenarioB stB_mid valid_scenarioB reach_stB_mid)
             eq_refl).
  - exact (proj2 (deadlock_free scenarioA stA_final valid_scenarioA
                    reach_stA_final) eq_refl (Run 0)).
Defined.

(** When no party can form and every worker is on its way out, a step
    changes neither the queues nor any instance record, and the workers
    stay on their way out. *)
Lemma exit_only_step c e s s' :
  Inv c s -> no_more_parties s = true ->
  (forall i p, workers s !! i = Some p -> on_exit_path p = true) ->
  exec c e s = Some s' ->
  pool s' = pool s /\ instances s' = instances s
  /\ (forall i p, workers s' !! i = Some p -> on_exit_path p = true).
Proof.
  intros Hinv Ht Hw Hstep.
  step_cases Hstep; prune Hinv;
    try match goal with
    | H : workers _ !! _ = Some _ |- _ => apply Hw in H; discriminate H
    end;
    try congruence;
    (split; [reflexivity|]); (split; [reflexivity|]);
    try exact Hw;
    intros j q Hq; split_lookup Hq j; try done; by eapply Hw.
Qed.

Lemma monitor_stopped_inv c s :
  valid_config c -> reachable c s -> monitor s = MStopped ->
  no_more_parties s = true /\ all_instances_empty s = true
  /\ (forall i p, workers s !! i = Some p -> on_exit_path p = true).
Proof.
  intros Hv Hr. induction Hr as [|s e s' Hr IH Hstep]; [discriminate|].
  intros Hm'. pose proof (Inv_reachable _ _ Hv Hr) as Hinv.
  destruct (decide (monitor s = MStopped)) as [Hm|Hm].
  - destruct (IH Hm) as (Ht & He & Hw).
    destruct (exit_only_step _ _ _ _ Hinv Ht Hw Hstep) as (Hp & Hi & Hw').
    split; [|split; [|done]].
    + unfold no_more_parties, pool in *. injection Hp as -> -> ->. done.
    + unfold all_instances_empty in *. by rewrite Hi.
  - clear IH. pose proof Hstep as Hstep'.
    step_cases Hstep; prune Hinv; simpl in Hm'; try done; try discriminate.
    match goal with
    | H : _ && _ = true |- _ => apply andb_true_iff in H as [Ht He]
    end.
    split; [done|]. split; [done|]. simpl. intros i p Hp.
    destruct (inv_awake _ _ Hinv _ _ Hp) as [Hnp Hnw].
    destruct (instance_exists _ _ _ _ Hinv Hp) as [x Hx].
    pose proof (inv_active _ _ Hinv _ _ _ Hx Hp) as Ha.
    assert (is_active x = false) as Hx'.
    { unfold all_instances_empty in He. rewrite forallb_forall in He.
      apply list_elem_of_lookup_2, list_elem_of_In, He in Hx.
      by destruct (is_active x). }
    rewrite Hx' in Ha.
    assert (Hl : holds_lock p = false).
    { destruct (holds_lock p) eqn:Hl; [|done].
      apply (inv_lock_w _ _ Hinv _ _ Hp) in Hl.
      assert (mtx s = Some Monitor) by (by apply (inv_lock_m _ _ Hinv)).
      congruence. }
    destruct p; try done; discriminate.
Qed.

(** X9. The status thread never returns early.  Once [printLiveStatus] has
    returned, no party can form, no instance is active, every worker has
    returned or is on its way to the [return] of line 46, and no later step
    changes the queues or an instance record: the summary printed after the
    joins shows what the last live status showed. *)
Theorem status_thread_exit_sound c s s' :
  valid_config c -> reachable c s -> monitor s = MStopped -> steps c s s' ->
  no_more_parties s = true /\ all_instances_empty s = true
  /\ (forall i p, workers s !! i = Some p -> on_exit_path p = true)
  /\ instances s' = instances s
  /\ tank_queue s' = tank_queue s /\ healer_queue s' = healer_queue s
  /\ dps_queue s' = dps_queue s.
Proof.
  intros Hv Hr Hm Hs.
  destruct (monitor_stopped_inv _ _ Hv Hr Hm) as (Ht & He & Hw).
  split; [done|]. split; [done|]. split; [done|].
  pose proof (Inv_reachable _ _ Hv Hr) as Hinv. clear Hr Hm He.
  induction Hs as [|s e s1 s2 Hstep Hs IH]; [done|].
  destruct (exit_only_step _ _ _ _ Hinv Ht Hw Hstep) as (Hp & Hi & Hw').
  assert (Ht' : no_more_parties s1 = true).
  { unfold no_more_parties, pool in *. injection Hp as -> -> ->. done. }
  destruct (IH Ht' Hw' (Inv_step c Hv e s s1 Hinv Hstep)) as (-> & -> & -> & ->).
  unfold pool in Hp. injection Hp as -> -> ->. by rewrite Hi.
Qed.

Lemma status_thread_exit_sound_witness :
  no_more_parties stA_final = true /\ all_instances_empty stA_final = true.
Proof.
  destruct (status_thread_exit_sound scenarioA stA_final stA_final
              valid_scenarioA reach_stA_final eq_refl (steps_refl _ _))
    as (H1 & H2 & _).
  exact (conj H1 H2).
Defined.

Lemma notified_inv c s :
  valid_config c -> reachable c s ->
  Z.of_nat (notified s)
  + Zsum ((fun p => b2z (notify_pending p)) <$> workers s)
  = total_served s.
Proof.
  intros Hv Hr. induction Hr as [|s e s' Hr IH Hstep].
  - unfold total_served. simpl. rewrite !Zsum_replicate_0 by done. done.
  - pose proof (Inv_reachable _ _ Hv Hr) as Hinv. unfold total_served in *.
    step_cases Hstep; prune Hinv;
      try match goal with
      | Hw : workers _ !! ?i = Some (L63 _), Hx : instances _ !! ?i = Some _ |- _ =>
          pose proof (Inv_served_upper _ _ _ _ _ Hv Hinv Hw Hx)
      end;
      sum_insert; simpl in *; int_arith; lia.
Qed.

(** X10. One [notify_one] per party.  The calls of [cv.notify_one] made so far,
    plus the workers that have counted a party on line 63 and not yet
    reached line 68, equal the parties served; when all workers have
    returned the two numbers agree. *)
Theorem one_notify_per_party c s :
  valid_config c -> reachable c s ->
  Z.of_nat (notified s)
  + Zsum ((fun p => b2z (notify_pending p)) <$> workers s)
  = total_served s
  /\ (all_stopped s = true -> Z.of_nat (notified s) = total_served s).
Proof.
  intros Hv Hr. pose proof (notified_inv _ _ Hv Hr) as H. split; [done|].
  intros Hs. rewrite <- H.
  assert (Zsum ((fun p => b2z (notify_pending p)) <$> workers s) = 0) as ->; [|lia].
  unfold all_stopped in Hs. induction (workers s) as [|p l IHl]; [done|].
  simpl in Hs. apply andb_true_iff in Hs as [Hp Hl].
  apply bool_decide_eq_true in Hp as ->.
  rewrite fmap_cons, Zsum_cons, IHl by done. done.
Qed.

Lemma one_notify_per_party_witness :
  Z.of_nat (notified stA_final) = total_served stA_final.
Proof.
  exact (proj2 (one_notify_per_party scenarioA stA_final valid_scenarioA
                  reach_stA_final) eq_refl).
Defined.

(** X11. Each worker writes only its own record: a statement leaves the instance
    record of every thread other than the one executing it as it was, and a
    statement of the status thread leaves queues, records and workers
    untouched. *)
Theorem writes_own_record_only c e s s' :
  exec c e s = Some s' ->
  (forall j, actor e <> Worker j -> instances s' !! j = instances s !! j)
  /\ (e = Mon ->
      instances s' = instances s /\ workers s' = workers s
      /\ pool s' = pool s /\ notified s' = notified s).
Proof.
  intros H. split.
  - intros j Hj.
    step_cases H; simpl; try done;
      apply list_lookup_insert_ne; simpl in Hj; congruence.
  - intros ->. simpl in H. unfold run_monitor in H.
    repeat match type of H with
    | context [match ?x with _ => _ end] => destruct x eqn:?; try discriminate H
    end; injection H as <-; done.
Qed.

Lemma step_stats_le c e s s' i x x' :
  valid_config c -> Inv c s -> exec c e s = Some s' ->
  instances s !! i = Some x -> instances s' !! i = Some x' ->
  parties_served x <= parties_served x' /\ total_time x <= total_time x'.
Proof.
  intros Hv Hinv H Hx Hx'. pose proof (valid_config_bounds _ Hv).
  step_cases H; prune Hinv; simpl in Hx';
    try (assert (x' = x) as -> by congruence; lia);
    split_lookup Hx' i;
    try (assert (x' = x) as -> by congruence; lia);
    try match goal with
    | Hw : workers _ !! ?i = Some (L63 _), Hy : instances _ !! ?i = Some _ |- _ =>
        pose proof (Inv_served_upper _ _ _ _ _ Hv Hinv Hw Hy)
    end;
    try match goal with
    | Hw : workers _ !! ?i = Some (L64 _) |- _ =>
        pose proof (inv_rt _ _ Hinv _ _ _ Hw eq_refl)
    end;
    simplify_eq; simpl in *; int_arith; lia.
Qed.

(** X12. The statistics only grow: along any execution an instance's
    [parties_served] and [total_time] never decrease. *)
Theorem statistics_monotone c s s' i x x' :
  valid_config c -> reachable c s -> steps c s s' ->
  instances s !! i = Some x -> instances s' !! i = Some x' ->
  parties_served x <= parties_served x' /\ total_time x <= total_time x'.
Proof.
  intros Hv Hr Hs. pose proof (Inv_reachable _ _ Hv Hr) as Hinv. clear Hr.
  revert x. induction Hs as [|s e s1 s2 Hstep Hs IH]; intros x Hx Hx'.
  - assert (x' = x) as -> by congruence. lia.
  - pose proof (Inv_step c Hv e s s1 Hinv Hstep) as Hinv1.
    assert (Hx1 : is_Some (instances s1 !! i)).
    { apply lookup_lt_is_Some. rewrite (inv_len_i _ _ Hinv1), <- (inv_len_i _ _ Hinv).
      by eapply lookup_lt_Some. }
    destruct Hx1 as [x1 Hx1].
    pose proof (step_stats_le _ _ _ _ _ _ _ Hv Hinv Hstep Hx Hx1).
    pose proof (IH Hinv1 _ Hx1 Hx'). lia.
Qed.

Lemma steps_stB_one : steps scenarioB (init scenarioB) stB_one.
Proof. apply (run_steps _ schB_one). vm_compute. reflexivity. Qed.

Lemma statistics_monotone_witness :
  parties_served (mkInstance false 0 0) <= parties_served (mkInstance false 1 1)
  /\ total_time (mkInstance false 0 0) <= total_time (mkInstance false 1 1).
Proof.
  exact (statistics_monotone scenarioB (init scenarioB) stB_one 0%nat
           (mkInstance false 0 0) (mkInstance false 1 1)
           valid_scenarioB (reach_init scenarioB) steps_stB_one
           eq_refl eq_refl).
Defined.

Lemma writes_own_record_only_witness :
  exec scenarioB (Run 1) stB_mid
  = Some (set_pc 1 L53 (set_healer 0 stB_mid))
  /\ instances (set_pc 1 L53 (set_healer 0 stB_mid)) !! 0%nat
     = instances stB_mid !! 0%nat.
Proof.
  split; [reflexivity|].
  apply (proj1 (writes_own_record_only scenarioB (Run 1) stB_mid
                  (set_pc 1 L53 (set_healer 0 stB_mid)) eq_refl) 0%nat).
  discriminate.
Defined.

Lemma Zsum_ext {A} (f g : A -> Z) (l : list A) :
  (forall i x, l !! i = Some x -> f x = g x) ->
  Zsum (f <$> l) = Zsum (g <$> l).
Proof.
  induction l as [|a l IH]; intros H; [done|].
  rewrite !fmap_cons, !Zsum_cons, (H 0%nat a eq_refl), IH; [done|].
  intros i x Hx. exact (H (S i) x Hx).
Qed.

Lemma Zsum_pointwise {A B} (f : A -> Z) (g : B -> Z) (l : list A) (k : list B) :
  length l = length k ->
  (forall i x y, l !! i = Some x -> k !! i = Some y -> f x = g y) ->
  Zsum (f <$> l) = Zsum (g <$> k).
Proof.
  revert k. induction l as [|a l IH]; intros [|b k] Hlen H; try done.
  rewrite !fmap_cons, !Zsum_cons, (H 0%nat a b eq_refl eq_refl).
  rewrite (IH k); [done|by injection Hlen|].
  intros i x y Hx Hy. exact (H (S i) x y Hx Hy).
Qed.

Lemma Zsum_le {A} (f g : A -> Z) (l : list A) :
  (forall i x, l !! i = Some x -> f x <= g x) ->
  Zsum (f <$> l) <= Zsum (g <$> l).
Proof.
  induction l as [|a l IH]; intros H; [done|].
  rewrite !fmap_cons, !Zsum_cons. pose proof (H 0%nat a eq_refl).
  assert (Zsum (f <$> l) <= Zsum (g <$> l))
    by (apply IH; intros i x Hx; exact (H (S i) x Hx)).
  lia.
Qed.

Lemma Zsum_scale {A} (k : Z) (f : A -> Z) (l : list A) :
  Zsum ((fun x => k * f x) <$> l) = k * Zsum (f <$> l).
Proof.
  induction l as [|a l IH]; [simpl; lia|].
  rewrite !fmap_cons, !Zsum_cons, IH. lia.
Qed.

(** X13. What a live status shows.  While the status thread scans (line 99 to
    line 120, under the mutex), an instance is shown "Active" exactly when
    its worker is simulating a dungeon run, no worker is inside a critical
    section, and the queue counts shown account for every party: initial
    count = remaining + parties served + parties running, for tanks and
    healers, and three times that for dps. *)
Theorem live_status_consistent c s :
  valid_config c -> reachable c s -> monitor s = M99 ->
  (forall i x p, instances s !! i = Some x -> workers s !! i = Some p ->
     is_active x = in_dungeon p /\ holds_lock p = false)
  /\ cfg_t c = tank_queue s + total_served s + active_count s
  /\ cfg_h c = healer_queue s + total_served s + active_count s
  /\ cfg_d c = dps_queue s + 3 * (total_served s + active_count s).
Proof.
  intros Hv Hr Hm. pose proof (Inv_reachable _ _ Hv Hr) as Hinv.
  assert (Ho : mtx s = Some Monitor) by (by apply (inv_lock_m _ _ Hinv)).
  assert (Hl : forall i p, workers s !! i = Some p -> holds_lock p = false).
  { intros i p Hp. destruct (holds_lock p) eqn:Hl; [|done].
    apply (inv_lock_w _ _ Hinv _ _ Hp) in Hl. congruence. }
  assert (Ha : forall i x p, instances s !! i = Some x ->
            workers s !! i = Some p -> is_active x = in_dungeon p).
  { intros i x p Hx Hp. rewrite (inv_active _ _ Hinv _ _ _ Hx Hp).
    pose proof (Hl _ _ Hp). by destruct p. }
  split; [intros i x p Hx Hp; split; eauto|].
  assert (Hlen : length (instances s) = length (workers s))
    by (rewrite (inv_len_i _ _ Hinv), (inv_len_w _ _ Hinv); done).
  assert (Hac : forall took : wpc -> bool,
            (forall p, holds_lock p = false -> took p = in_dungeon p) ->
            Zsum ((fun p => b2z (took p)) <$> workers s) = active_count s).
  { intros took Htook. unfold active_count. symmetry.
    apply Zsum_pointwise; [done|]. intros i x p Hx Hp.
    rewrite (Ha _ _ _ Hx Hp), (Htook p (Hl _ _ Hp)). done. }
  pose proof (inv_tank _ _ Hinv) as H1. pose proof (inv_healer _ _ Hinv) as H2.
  pose proof (inv_dps _ _ Hinv) as H3.
  rewrite (Hac took_tank) in H1 by (by intros []).
  rewrite (Hac took_healer) in H2 by (by intros []).
  rewrite (Hac took_dps) in H3 by (by intros []).
  lia.
Qed.

Lemma reach_stB_scan : reachable scenarioB stB_scan.
Proof.
  apply (run_reachable _
    [Run 0; Run 0; Run 0; Run 0; Run 0; Run 0; Run 0; Run 0; Draw 0 1;
     Mon; Mon]%nat).
  vm_compute. reflexivity.
Qed.

Lemma live_status_consistent_witness :
  cfg_t scenarioB
  = tank_queue stB_scan + total_served stB_scan + active_count stB_scan.
Proof.
  exact (proj1 (proj2 (live_status_consistent scenarioB stB_scan
                  valid_scenarioB reach_stB_scan eq_refl))).
Defined.

(** X14. [notify_one] never wakes anybody: in a reachable state neither a wake-up
    by line 68 nor a spurious wake-up is possible, because no worker is ever
    blocked in [cv.wait]; line 68 only counts. *)
Theorem notify_never_wakes c s :
  valid_config c -> reachable c s ->
  (forall i j, exec c (Wake i j) s = None)
  /\ (forall j, exec c (Spurious j) s = None)
  /\ (forall i, workers s !! i = Some L68 ->
        exec c (Run i) s = Some (set_pc i L69 (count_notify s))).
Proof.
  intros Hv Hr. pose proof (Inv_reachable _ _ Hv Hr) as Hinv.
  assert (Hnp : forall j, workers s !! j <> Some Parked).
  { intros j Hj. by destruct (inv_awake _ _ Hinv _ _ Hj). }
  split; [|split].
  - intros i j. simpl. destruct (workers s !! i) as [[]|]; try done.
    destruct (workers s !! j) as [[]|] eqn:Hj; try done. by destruct (Hnp j).
  - intros j. simpl.
    destruct (workers s !! j) as [[]|] eqn:Hj; try done. by destruct (Hnp j).
  - intros i Hi. simpl. unfold run_worker.
    by rewrite Hi, (none_parked_true _ _ Hinv).
Qed.

Lemma notify_never_wakes_witness :
  valid_config scenarioB /\ reachable scenarioB stB_mid
  /\ exec scenarioB (Wake 0 1) stB_mid = None
  /\ exec scenarioB (Spurious 1) stB_mid = None.
Proof.
  split; [exact valid_scenarioB|]. split; [exact reach_stB_mid|].
  destruct (notify_never_wakes scenarioB stB_mid valid_scenarioB
              reach_stB_mid) as (H1 & H2 & _).
  exact (conj (H1 0%nat 1%nat) (H2 1%nat)).
Defined.

(** Lines 36 to 58 for a worker that finds the mutex free and a party
    available: it takes the party, releases the mutex and draws the shortest
    run time. *)
Lemma run_start_party c s i :
  valid_config c -> Inv c s -> workers s !! i = Some L36 -> mtx s = None ->
  1 <= tank_queue s -> 1 <= healer_queue s -> 3 <= dps_queue s ->
  exists x, instances s !! i = Some x /\
    run c (Run i :: replicate 6 (Run i) ++ [Run i; Draw i (cfg_t1 c)]) s
    = Some (mkState None (tank_queue s - 1) (healer_queue s - 1)
              (dps_queue s - 3)
              (<[i:=mkInstance true (parties_served x) (total_time x)]>
                 (instances s))
              (<[i:=L59 (cfg_t1 c)]> (workers s)) (monitor s) (notified s)
              (status_lines s)).
Proof.
  intros Hv Hinv Hi Ho Ht Hh Hd. pose proof (valid_config_bounds _ Hv) as Hb.
  assert (Hlt : (i < length (workers s))%nat) by (by eapply lookup_lt_Some).
  assert (He : exec c (Run i) s
               = Some (set_pc i L39 (set_mtx (Some (Worker i)) s))).
  { simpl. unfold run_worker, mtx_free. by rewrite Hi, Ho. }
  pose proof (Inv_step c Hv _ _ _ Hinv He) as Hinv1.
  destruct (run_reserve c (set_pc i L39 (set_mtx (Some (Worker i)) s)) i
              Hv Hinv1) as (x & Hx & Hrun); try done.
  { simpl. by apply list_lookup_insert_eq. }
  exists x. split; [exact Hx|].
  rewrite (run_cons _ _ _ _ _ He), run_app, Hrun.
  destruct s; simpl in *.
  unfold run_worker. simpl.
  rewrite list_lookup_insert_eq by (by rewrite length_insert). simpl.
  rewrite list_lookup_insert_eq by (by rewrite !length_insert).
  replace ((cfg_t1 c <=? cfg_t1 c) && (cfg_t1 c <=? cfg_t2 c)) with true
    by (symmetry; apply andb_true_iff; rewrite !Z.leb_le; lia).
  unfold set_pc. simpl. by rewrite !list_insert_insert_eq.
Qed.

(** X15. Dungeon runs overlap.  A worker simulating its run (lines 58 to 62)
    never owns the mutex; and with at least two instances and players for
    two parties, some execution has two instances inside their runs at the
    same time, both shown active, with the mutex free. *)
Theorem dungeon_runs_overlap c :
  valid_config c ->
  (forall s i p, reachable c s -> workers s !! i = Some p ->
     in_dungeon p = true -> mtx s <> Some (Worker i))
  /\ (2 <= cfg_n c -> 2 <= cfg_t c -> 2 <= cfg_h c -> 6 <= cfg_d c ->
      exists sch s, run c sch (init c) = Some s /\ mtx s = None
        /\ workers s !! 0%nat = Some (L59 (cfg_t1 c))
        /\ workers s !! 1%nat = Some (L59 (cfg_t1 c))
        /\ instances s !! 0%nat = Some (mkInstance true 0 0)
        /\ instances s !! 1%nat = Some (mkInstance true 0 0)
        /\ tank_queue s = cfg_t c - 2).
Proof.
  intros Hv. split.
  - intros s i p Hr Hp Hin Ho.
    apply (inv_lock_w _ _ (Inv_reachable _ _ Hv Hr) _ _ Hp) in Ho.
    by destruct p.
  - intros Hn Ht Hh Hd.
    assert (Hlen : (2 <= Z.to_nat (cfg_n c))%nat) by lia.
    destruct (Z.to_nat (cfg_n c)) as [|[|n]] eqn:En; try lia.
    destruct (run_start_party c (init c) 0 Hv (Inv_init _ Hv))
      as (x0 & Hx0 & Hrun0); simpl; try lia; try done.
    { by rewrite En. }
    simpl in Hx0. rewrite En in Hx0. injection Hx0 as <-.
    match type of Hrun0 with _ = Some ?t => set (s1 := t) in * end.
    assert (Hr1 : reachable c s1) by (by eapply run_reachable).
    destruct (run_start_party c s1 1 Hv (Inv_reachable _ _ Hv Hr1))
      as (x1 & Hx1 & Hrun1); simpl; try lia; try done.
    { by rewrite En. }
    simpl in Hx1. rewrite En in Hx1. injection Hx1 as <-.
    eexists. eexists. split; [rewrite run_app, Hrun0; exact Hrun1|].
    simpl. rewrite En. simpl. repeat split; lia.
Qed.

Lemma dungeon_runs_overlap_witness :
  exists sch s, run scenarioB sch (init scenarioB) = Some s /\ mtx s = None
    /\ workers s !! 0%nat = Some (L59 (cfg_t1 scenarioB))
    /\ workers s !! 1%nat = Some (L59 (cfg_t1 scenarioB))
    /\ instances s !! 0%nat = Some (mkInstance true 0 0)
    /\ instances s !! 1%nat = Some (mkInstance true 0 0)
    /\ tank_queue s = cfg_t scenarioB - 2.
Proof.
  apply (proj2 (dungeon_runs_overlap scenarioB valid_scenarioB));
    simpl; lia.
Defined.

(** X16. Total time served.  When every worker has returned, the busy times of
    all instances add up to between [min_time] and [max_time] seconds per
    party formed, the parties formed being min(T, H, D div 3). *)
Theorem total_busy_time_bounds c s :
  valid_config c -> reachable c s -> all_stopped s = true ->
  cfg_t1 c * total_served s <= total_busy_time s <= cfg_t2 c * total_served s
  /\ total_busy_time s
     <= 15 * Z.min (cfg_t c) (Z.min (cfg_h c) (cfg_d c / 3)).
Proof.
  intros Hv Hr Hs. pose proof (Inv_reachable _ _ Hv Hr) as Hinv.
  pose proof (valid_config_bounds _ Hv) as Hb.
  assert (Hi : forall i x, instances s !! i = Some x ->
            cfg_t1 c * parties_served x <= total_time x
            <= cfg_t2 c * parties_served x).
  { intros i x Hx.
    assert (Hp : is_Some (workers s !! i)).
    { apply lookup_lt_is_Some.
      rewrite (inv_len_w _ _ Hinv), <- (inv_len_i _ _ Hinv).
      by eapply lookup_lt_Some. }
    destruct Hp as [p Hp]. pose proof (all_stopped_lookup _ _ _ Hs Hp) as ->.
    exact (inv_time _ _ Hinv _ _ _ Hx Hp). }
  assert (Hlo : cfg_t1 c * total_served s <= total_busy_time s).
  { unfold total_served, total_busy_time. rewrite <- Zsum_scale.
    apply Zsum_le. intros i x Hx. apply (Hi i x Hx). }
  assert (Hhi : total_busy_time s <= cfg_t2 c * total_served s).
  { unfold total_served, total_busy_time. rewrite <- Zsum_scale.
    apply Zsum_le. intros i x Hx. apply (Hi i x Hx). }
  split; [lia|].
  pose proof (Inv_served_nonneg _ _ Hinv).
  destruct (quiescent_took _ (all_stopped_quiescent _ Hs)) as (E1 & E2 & E3).
  pose proof (inv_tank _ _ Hinv) as H1. pose proof (inv_healer _ _ Hinv) as H2.
  pose proof (inv_dps _ _ Hinv) as H3. rewrite E1 in H1. rewrite E2 in H2.
  rewrite E3 in H3. pose proof (inv_nonneg _ _ Hinv).
  pose proof (Z.div_mod (cfg_d c) 3 ltac:(lia)).
  pose proof (Z.mod_pos_bound (cfg_d c) 3 ltac:(lia)).
  assert (total_served s <= Z.min (cfg_t c) (Z.min (cfg_h c) (cfg_d c / 3))) by lia.
  nia.
Qed.

Lemma total_busy_time_bounds_witness :
  cfg_t1 scenarioA * total_served stA_final <= total_busy_time stA_final
  <= cfg_t2 scenarioA * total_served stA_final.
Proof.
  exact (proj1 (total_busy_time_bounds scenarioA stA_final valid_scenarioA
                  reach_stA_final eq_refl)).
Defined.

(** X17. No thread returns with the mutex: a worker that has returned does not
    own it, neither does the status thread once it has returned, and when
    all threads are joined the mutex is free. *)
Theorem mutex_released_on_return c s :
  valid_config c -> reachable c s ->
  (forall i, workers s !! i = Some Stopped -> mtx s <> Some (Worker i))
  /\ (monitor s = MStopped -> mtx s <> Some Monitor)
  /\ (finished s = true -> mtx s = None).
Proof.
  intros Hv Hr. pose proof (Inv_reachable _ _ Hv Hr) as Hinv.
  split; [|split].
  - intros i Hi Ho. by apply (inv_lock_w _ _ Hinv _ _ Hi) in Ho.
  - intros Hm Ho. apply (inv_lock_m _ _ Hinv) in Ho. congruence.
  - intros Hf. unfold finished in Hf. apply andb_true_iff in Hf as [Hs Hm].
    apply bool_decide_eq_true in Hm.
    apply (mtx_free_when_idle c); try done; [congruence|].
    intros i p. by apply all_stopped_no_lock.
Qed.

Lemma mutex_released_on_return_witness : mtx stA_final = None.
Proof.
  exact (proj2 (proj2 (mutex_released_on_return scenarioA stA_final
                  valid_scenarioA reach_stA_final)) eq_refl).
Defined.

(** X18. Parties leave the queues whole.  Unless some worker is between its
    [tank_queue--] and its [dps_queue -= 3] (at line 52 or 53, inside its
    critical section), the three queues show the same number of parties
    withdrawn; in particular whenever the mutex is free or owned by the
    status thread. *)
Theorem whole_parties_visible c s :
  valid_config c -> reachable c s ->
  ((forall i p, workers s !! i = Some p -> p <> L52 /\ p <> L53) ->
   cfg_t c - tank_queue s = cfg_h c - healer_queue s
   /\ cfg_d c - dps_queue s = 3 * (cfg_t c - tank_queue s))
  /\ (mtx s = None \/ mtx s = Some Monitor ->
      forall i p, workers s !! i = Some p -> p <> L52 /\ p <> L53).
Proof.
  intros Hv Hr. pose proof (Inv_reachable _ _ Hv Hr) as Hinv. split.
  - intros Hw.
    assert (Hs : forall took : wpc -> bool,
              (forall p, p <> L52 -> p <> L53 -> took p = took_dps p) ->
              Zsum ((fun p => b2z (took p)) <$> workers s)
              = Zsum ((fun p => b2z (took_dps p)) <$> workers s)).
    { intros took Htook. apply Zsum_ext. intros i p Hp.
      destruct (Hw _ _ Hp). by rewrite Htook. }
    pose proof (inv_tank _ _ Hinv) as H1. pose proof (inv_healer _ _ Hinv) as H2.
    pose proof (inv_dps _ _ Hinv) as H3.
    rewrite (Hs took_tank) in H1 by (by intros []).
    rewrite (Hs took_healer) in H2 by (by intros []).
    lia.
  - intros Ho i p Hp.
    split; intros ->; apply (inv_lock_w _ _ Hinv) in Hp;
      assert (mtx s = Some (Worker i)) by (by apply Hp);
      destruct Ho; congruence.
Qed.

Lemma whole_parties_visible_witness :
  cfg_t scenarioB - tank_queue stB_one = cfg_h scenarioB - healer_queue stB_one
  /\ cfg_d scenarioB - dps_queue stB_one
     = 3 * (cfg_t scenarioB - tank_queue stB_one).
Proof.
  destruct (whole_parties_visible scenarioB stB_one valid_scenarioB
              reach_stB_one) as [H1 H2].
  exact (H1 (H2 (or_introl eq_refl))).
Defined.

(** * Termination without a party, notification and exit status *)

Lemma exiting_init c :
  valid_config c -> no_more_parties (init c) = true -> exiting c (init c).
Proof.
  intros Hv Hn. split; [by apply Inv_init|done| |].
  - intros i p [-> _]%lookup_replicate. done.
  - unfold all_instances_empty. simpl. by apply forallb_replicate.
Qed.

Lemma exiting_step c e s s' :
  valid_config c -> exiting c s -> exec c e s = Some s' -> exiting c s'.
Proof.
  intros Hv [Hinv Ht Hw He] Hstep.
  destruct (exit_only_step _ _ _ _ Hinv Ht Hw Hstep) as (Hp & Hi & Hw').
  split; [exact (Inv_step c Hv e s s' Hinv Hstep)| |done|].
  - unfold no_more_parties, pool in *. injection Hp as -> -> ->. done.
  - unfold all_instances_empty in *. by rewrite Hi.
Qed.

(** With no party to form, a statement moves its own thread one statement
    closer to its [return] and leaves the other threads where they are. *)
Lemma exiting_step_rank c e s s' :
  exiting c s -> exec c e s = Some s' ->
  (forall i p, workers s !! i = Some p ->
     exists p', workers s' !! i = Some p'
       /\ exit_rank p'
          = exit_rank p - (if decide (actor e = Worker i) then 1 else 0))
  /\ monitor_rank (monitor s')
     = monitor_rank (monitor s) - (if decide (actor e = Monitor) then 1 else 0).
Proof.
  intros [Hinv Ht Hw He] Hstep.
  step_cases Hstep; prune Hinv;
    try match goal with
    | H : workers _ !! _ = Some _ |- _ =>
        pose proof (Hw _ _ H) as Hbad; discriminate Hbad
    end;
    try congruence; simpl;
    try (rewrite Ht, He in *; simpl in *; try discriminate).
  all: split; [|lia]; intros j q Hq.
  4-6: exists q; split; [done|lia].
  all: destruct (decide (i = j)) as [->|Hne];
    [ rewrite list_lookup_insert_eq by (by eapply lookup_lt_Some);
      eexists; split; [reflexivity|];
      rewrite decide_True by done; simplify_eq; reflexivity
    | rewrite list_lookup_insert_ne by done;
      exists q; split; [done|];
      rewrite decide_False by congruence; lia ].
Qed.

Lemma events_of_cons t e sch :
  events_of t (e :: sch)
  = ((if decide (actor e = t) then 1 else 0) + events_of t sch)%nat.
Proof.
  unfold events_of. rewrite filter_cons. by destruct (decide (actor e = t)).
Qed.

Lemma exiting_run c sch s s' :
  valid_config c -> exiting c s -> run c sch s = Some s' ->
  exiting c s'
  /\ (forall i p, workers s !! i = Some p ->
        exists p', workers s' !! i = Some p'
          /\ Z.of_nat (events_of (Worker i) sch) + exit_rank p' = exit_rank p)
  /\ Z.of_nat (events_of Monitor sch) + monitor_rank (monitor s')
     = monitor_rank (monitor s).
Proof.
  intros Hv. revert s. induction sch as [|e sch IH]; intros s Hex Hrun.
  - simpl in Hrun. injection Hrun as <-. split; [done|]. split; [|done].
    intros i p Hp. by exists p.
  - simpl in Hrun. destruct (exec c e s) as [s1|] eqn:He; [|done].
    destruct (exiting_step_rank _ _ _ _ Hex He) as [Hw Hm].
    destruct (IH s1 (exiting_step _ _ _ _ Hv Hex He) Hrun) as (Hex' & Hw' & Hm').
    split; [done|]. split.
    + intros i p Hp. destruct (Hw _ _ Hp) as (p1 & Hp1 & Hr1).
      destruct (Hw' _ _ Hp1) as (p' & Hp' & Hr').
      exists p'. split; [done|]. rewrite events_of_cons. revert Hr1.
      destruct (decide (actor e = Worker i)); cbv beta iota; intros; lia.
    + rewrite events_of_cons. revert Hm.
      destruct (decide (actor e = Monitor)); cbv beta iota; intros; lia.
Qed.

(** With no party to form, every statement of every thread uses up one of
    the [3 * N + 3] statements there are. *)
Lemma exiting_run_length c sch s s' :
  valid_config c -> exiting c s -> run c sch s = Some s' ->
  Z.of_nat (length sch) + Zsum (exit_rank <$> workers s')
  + monitor_rank (monitor s')
  = Zsum (exit_rank <$> workers s) + monitor_rank (monitor s).
Proof.
  intros Hv. revert s. induction sch as [|e sch IH]; intros s Hex Hrun.
  - simpl in Hrun. injection Hrun as <-. simpl. lia.
  - simpl in Hrun. destruct (exec c e s) as [s1|] eqn:He; [|done].
    pose proof (IH s1 (exiting_step _ _ _ _ Hv Hex He) Hrun) as Hl.
    assert (Zsum (exit_rank <$> workers s1) + monitor_rank (monitor s1) + 1
            = Zsum (exit_rank <$> workers s) + monitor_rank (monitor s)) as Hs.
    { destruct Hex as [Hinv Ht Hw Hem]. clear IH Hrun Hl.
      step_cases He; prune Hinv;
        try match goal with
        | H : workers _ !! _ = Some _ |- _ =>
            pose proof (Hw _ _ H) as Hbad; discriminate Hbad
        end;
        try congruence; simpl;
        try (rewrite Ht, Hem in *; simpl in *; try discriminate);
        repeat match goal with
        | Hp : ?l !! ?i = Some ?x |- context [Zsum (?f <$> <[?i:=?y]> ?l)] =>
            rewrite (Zsum_insert f l i x y Hp)
        end; simpl; lia. }
    change (length (e :: sch)) with (S (length sch)). lia.
Qed.

Lemma Zsum_replicate {A} (f : A -> Z) n a :
  Zsum (f <$> replicate n a) = Z.of_nat n * f a.
Proof.
  induction n as [|n IH]; [done|].
  rewrite replicate_S, fmap_cons, Zsum_cons, IH. lia.
Qed.

(** In a reachable state some thread can execute a statement unless every
    thread has returned. *)
Lemma some_step_enabled c s :
  valid_config c -> reachable c s -> finished s = false ->
  exists e s', exec c e s = Some s'.
Proof.
  intros Hv Hr Hf. destruct (all_stopped s) eqn:Hs.
  - destruct (monitor_finish _ _ Hv Hr Hs) as ([|e sch] & s' & Hrun & Hfin & _).
    + simpl in Hrun. congruence.
    + simpl in Hrun. destruct (exec c e s) as [s1|] eqn:He; [|done].
      by exists e, s1.
  - destruct (decide (monitor s = M99)) as [HM|HM].
    + exists Mon. simpl. unfold run_monitor. rewrite HM.
      destruct (no_more_parties s && all_instances_empty s); by eexists.
    + destruct (progress_worker _ _ Hv Hr HM Hs) as (e & s1 & _ & He).
      by exists e, s1.
Qed.

Lemma valid_scenarioD : valid_config scenarioD.
Proof. split; reflexivity. Qed.

(** C6. In a valid configuration whose initial counts already satisfy the
    termination condition, every reachable state has the initial queue
    counts, every instance record untouched (empty, zero parties served),
    and every worker on the path line 36, line 39, line 45, stopped.  On
    every execution each worker executes these three statements and no
    other: the statements it has executed and the statements it has left
    always add up to three, and likewise for the status thread, so an
    execution has at most [3 * N + 3] steps.  No execution gets stuck
    before every thread has returned, so an execution that cannot be
    continued has every worker stopped, with no party formed.  The schedule
    in which each worker in turn takes its three steps is one such run. *)
Theorem immediate_termination c :
  valid_config c ->
  cfg_t c = 0 \/ cfg_h c = 0 \/ cfg_d c < 3 ->
  (forall s, reachable c s ->
     tank_queue s = cfg_t c /\ healer_queue s = cfg_h c
     /\ dps_queue s = cfg_d c /\ total_served s = 0
     /\ instances s = replicate (Z.to_nat (cfg_n c)) (mkInstance false 0 0)
     /\ (forall i p, workers s !! i = Some p -> on_exit_path p = true))
  /\ (exists s, run c (stop_all (Z.to_nat (cfg_n c))) (init c) = Some s
        /\ finished s = true
        /\ workers s = replicate (Z.to_nat (cfg_n c)) Stopped
        /\ instances s = replicate (Z.to_nat (cfg_n c)) (mkInstance false 0 0))
  /\ (forall sch s, run c sch (init c) = Some s ->
        (forall i p, workers s !! i = Some p ->
           Z.of_nat (events_of (Worker i) sch) + exit_rank p = 3)
        /\ Z.of_nat (events_of Monitor sch) + monitor_rank (monitor s) = 3
        /\ Z.of_nat (length sch) + Zsum (exit_rank <$> workers s)
           + monitor_rank (monitor s) = 3 * cfg_n c + 3
        /\ Z.of_nat (length sch) <= 3 * cfg_n c + 3
        /\ (finished s = false -> exists e s', exec c e s = Some s')
        /\ ((forall e, exec c e s = None) ->
            finished s = true /\ total_served s = 0
            /\ forall i p, workers s !! i = Some p -> p = Stopped)).
Proof.
  intros Hv Ht. pose proof (valid_config_bounds _ Hv) as Hb.
  assert (Hn : no_more_parties (init c) = true) by (by apply no_more_parties_spec).
  assert (Hsafe : forall s, reachable c s ->
            tank_queue s = cfg_t c /\ healer_queue s = cfg_h c
            /\ dps_queue s = cfg_d c /\ total_served s = 0
            /\ instances s = replicate (Z.to_nat (cfg_n c)) (mkInstance false 0 0)
            /\ (forall i p, workers s !! i = Some p -> on_exit_path p = true)).
  { intros s Hr.
    destruct (terminal_start_inv _ _ Hv Hn Hr) as (Hp & Hi & Hw).
    unfold pool in Hp. simpl in Hp, Hi. injection Hp as -> -> ->.
    repeat split; try done.
    unfold total_served. rewrite Hi. by apply Zsum_replicate_0. }
  split; [exact Hsafe|]. split.
  - eexists. split; [by apply run_stop_all|]. repeat split.
    unfold finished, all_stopped. simpl.
    rewrite forallb_replicate; [done|]. by apply bool_decide_eq_true.
  - intros sch s Hrun.
    pose proof (run_reachable _ _ _ Hrun) as Hr.
    pose proof (exiting_init _ Hv Hn) as Hex0.
    destruct (exiting_run _ _ _ _ Hv Hex0 Hrun) as (Hex & Hw & Hm).
    pose proof (exiting_run_length _ _ _ _ Hv Hex0 Hrun) as Hlen.
    simpl in Hm, Hlen. rewrite Zsum_replicate in Hlen. simpl in Hlen.
    assert (0 <= Zsum (exit_rank <$> workers s))
      by (apply Zsum_nonneg; intros j q _; destruct q; simpl; lia).
    assert (0 <= monitor_rank (monitor s)) by (destruct (monitor s); simpl; lia).
    assert (Hstuck : finished s = false -> exists e s', exec c e s = Some s')
      by (by apply some_step_enabled).
    split; [|split; [lia|split; [lia|split; [lia|split; [done|]]]]].
    + intros i p Hp.
      assert (Hi : workers (init c) !! i = Some L36).
      { simpl. apply lookup_replicate. split; [done|].
        rewrite <- (inv_len_w _ _ (ex_inv _ _ Hex)). by eapply lookup_lt_Some. }
      destruct (Hw _ _ Hi) as (p' & Hp' & Hr'). simpl in Hr'.
      assert (p' = p) as -> by congruence. done.
    + intros Hnone.
      assert (Hf : finished s = true).
      { destruct (finished s) eqn:Hf; [done|].
        destruct (Hstuck eq_refl) as (e & s' & He). by rewrite Hnone in He. }
      split; [done|]. split; [by apply Hsafe|].
      intros i p Hp. unfold finished in Hf. apply andb_true_iff in Hf as [Hs _].
      exact (all_stopped_lookup _ _ _ Hs Hp).
Qed.

Lemma run_stC_one : run scenarioC [Run 0; Run 0; Run 0]%nat (init scenarioC)
                    = Some stC_one.
Proof. vm_compute. reflexivity. Qed.

Lemma immediate_termination_witness :
  valid_config scenarioC
  /\ (Z.of_nat (events_of (Worker 0) [Run 0; Run 0; Run 0]%nat)
      + exit_rank Stopped = 3)
  /\ (exists s, run scenarioD (stop_all (Z.to_nat (cfg_n scenarioD)))
                  (init scenarioD) = Some s /\ finished s = true).
Proof.
  split; [exact valid_scenarioC|]. split.
  - destruct (immediate_termination scenarioC valid_scenarioC
                (or_introl eq_refl)) as (_ & _ & H).
    exact (proj1 (H _ stC_one run_stC_one) 0%nat Stopped eq_refl).
  - destruct (immediate_termination scenarioD valid_scenarioD
                (or_intror (or_intror eq_refl))) as (_ & (s & H1 & H2 & _) & _).
    exists s. exact (conj H1 H2).
Defined.

(** C7, amended. The worker that finds the termination condition on line 45
    returns at once without calling [notify_one], and leaves no worker
    parked on the condition variable, because in every reachable state the
    wait predicate is true and no worker is parked.  [notify_one] is called by line 68 and by nothing
    else: a step raises the count of calls exactly when it is line 68 of
    some worker, line 68 always raises it by one, and the calls made plus
    the workers between line 63 and line 68 equal the parties served: one
    call at the end of each completed run. *)
Theorem exit_without_notify c :
  valid_config c ->
  (forall s i, reachable c s -> workers s !! i = Some L45 ->
     no_more_parties s = true ->
     exists s', exec c (Run i) s = Some s'
       /\ workers s' !! i = Some Stopped
       /\ notified s' = notified s
       /\ forall j p, workers s' !! j = Some p -> p <> Parked /\ p <> Woken)
  /\ (forall s, reachable c s ->
        wait_pred s = true
        /\ forall i p, workers s !! i = Some p -> p <> Parked /\ p <> Woken)
  /\ (forall s e s', reachable c s -> exec c e s = Some s' ->
        (notified s' = S (notified s)
         /\ exists k, e = Run k /\ workers s !! k = Some L68
              /\ workers s' !! k = Some L69)
        \/ (notified s' = notified s
            /\ forall k, actor e = Worker k -> workers s !! k <> Some L68))
  /\ (forall s k, reachable c s -> workers s !! k = Some L68 ->
        exec c (Run k) s = Some (set_pc k L69 (count_notify s)))
  /\ (forall s, reachable c s ->
        Z.of_nat (notified s)
        + Zsum ((fun p => b2z (notify_pending p)) <$> workers s)
        = total_served s).
Proof.
  intros Hv. split; [|split; [|split; [|split]]].
  - intros s i Hr Hi Ht.
    assert (He : exec c (Run i) s = Some (set_pc i Stopped (set_mtx None s)))
      by (simpl; unfold run_worker; rewrite Hi, Ht; done).
    eexists. split; [exact He|]. split; [|split; [done|]].
    + simpl. apply list_lookup_insert_eq. by eapply lookup_lt_Some.
    + apply (inv_awake c). apply (Inv_reachable _ _ Hv).
      by eapply reach_step.
  - intros s Hr. pose proof (Inv_reachable _ _ Hv Hr) as Hinv.
    destruct (inv_nonneg _ _ Hinv) as (? & ? & _).
    split; [by apply wait_pred_nonneg|exact (inv_awake _ _ Hinv)].
  - intros s e s' Hr H. pose proof (Inv_reachable _ _ Hv Hr) as Hinv.
    step_cases H; prune Hinv; simpl;
      try (right; split; [reflexivity|];
           intros k Hk; simplify_eq; congruence).
    left. split; [reflexivity|]. eexists. split; [reflexivity|].
    split; [done|]. apply list_lookup_insert_eq. by eapply lookup_lt_Some.
  - intros s k Hr Hk. simpl. unfold run_worker.
    by rewrite Hk, (none_parked_true _ _ (Inv_reachable _ _ Hv Hr)).
  - intros s Hr. exact (notified_inv c s Hv Hr).
Qed.

Lemma reach_stB_notify : reachable scenarioB stB_notify.
Proof.
  apply (run_reachable _
    [Run 0; Run 0; Run 0; Run 0; Run 0; Run 0; Run 0; Run 0; Draw 0 1;
     Run 0; Run 0; Run 0; Run 0; Run 0]%nat).
  vm_compute. reflexivity.
Qed.

Lemma exit_without_notify_witness :
  valid_config scenarioC
  /\ (exists s', exec scenarioC (Run 0) stC_check = Some s'
        /\ workers s' !! 0%nat = Some Stopped
        /\ notified s' = notified stC_check
        /\ forall j p, workers s' !! j = Some p -> p <> Parked /\ p <> Woken)
  /\ exec scenarioB (Run 0) stB_notify
     = Some (set_pc 0 L69 (count_notify stB_notify)).
Proof.
  split; [exact valid_scenarioC|]. split.
  - exact (proj1 (exit_without_notify scenarioC valid_scenarioC)
             stC_check 0%nat reach_stC_check eq_refl eq_refl).
  - destruct (exit_without_notify scenarioB valid_scenarioB)
      as (_ & _ & _ & H & _).
    exact (H stB_notify 0%nat reach_stB_notify eq_refl).
Defined.

Lemma main_rejects f m sch :
  (forall c, f = Values c -> readable c = false \/ invalid_input c = true) ->
  exists msg, main f m sch = Some (Returned (failure msg)).
Proof.
  intros Hf. destruct f as [| |c]; simpl; [by eexists|by eexists|].
  destruct (Hf c eq_refl) as [->| ->]; simpl; [by eexists|].
  destruct (readable c); simpl; by eexists.
Qed.

Lemma main_valid c m sch :
  valid_config c -> startup_ok c m = true ->
  main (Values c) m sch = simulate c sch.
Proof.
  intros [Hr Hv] Hok. simpl. rewrite Hr, Hv. simpl.
  unfold startup_ok in Hok.
  destruct (ctor_throws m); [done|].
  destruct (start_throws m) as [[[|k] w]|]; [done| |done].
  apply Nat.ltb_lt in Hok.
  destruct (Nat.ltb_spec k (Z.to_nat (cfg_n c))); [lia|done].
Qed.

Lemma simulate_complete c sch s :
  run c sch (init c) = Some s -> finished s = true ->
  simulate c sch
  = Some (Returned (mkOutcome 0 None (Z.to_nat (cfg_n c)) (Some s))).
Proof. intros Hrun Hf. unfold simulate. by rewrite Hrun, Hf. Qed.

(** [main] returns 0 only from [simulate], after a complete run. *)
Lemma main_zero f m sch o :
  main f m sch = Some (Returned o) -> exit_status o = 0 ->
  exists c s, f = Values c /\ valid_config c /\ startup_ok c m = true
    /\ run c sch (init c) = Some s /\ finished s = true
    /\ o = mkOutcome 0 None (Z.to_nat (cfg_n c)) (Some s).
Proof.
  intros H H0.
  assert (Hsim : forall c, simulate c sch = Some (Returned o) ->
            exists s, run c sch (init c) = Some s /\ finished s = true
              /\ o = mkOutcome 0 None (Z.to_nat (cfg_n c)) (Some s)).
  { intros c Hs. unfold simulate in Hs.
    destruct (run c sch (init c)) as [s|]; [|done].
    destruct (finished s) eqn:Hf; [|done]. injection Hs as <-. by exists s. }
  destruct f as [| |c]; simpl in H; try (injection H as <-; discriminate H0).
  destruct (readable c) eqn:Hr; simpl in H;
    [|injection H as <-; discriminate H0].
  destruct (invalid_input c) eqn:Hv; [injection H as <-; discriminate H0|].
  unfold startup_ok.
  destruct (ctor_throws m); [injection H as <-; discriminate H0|].
  destruct (start_throws m) as [[[|k] w]|];
    [injection H as <-; discriminate H0| |].
  - destruct (Nat.ltb_spec k (Z.to_nat (cfg_n c))); [done|].
    destruct (Hsim c H) as (s & ? & ? & ?). exists c, s.
    repeat split; try done. apply Nat.ltb_lt. lia.
  - destruct (Hsim c H) as (s & ? & ? & ?). exists c, s. by repeat split.
Qed.

(** C9. The test of line 154 passes exactly the six-tuples with N>0,
    T,H,D,T1,T2>=0, T1<=T2 and T2<=15.  When the file is missing, cannot be
    read as six [int]s, or fails that test, [main] prints an error, starts
    no thread and returns 1, whatever the machine and the schedule.  When
    the input passes, start-up succeeds and the threads run to completion,
    [main] returns 0 with the summary of the final state, having started
    its N workers; and [main] returns 0 in no other case: an exception at
    start-up gives status 1 with no worker started, or an abort. *)
Theorem validation_and_exit_status :
  (forall c, invalid_input c = false <->
     0 < cfg_n c /\ 0 <= cfg_t c /\ 0 <= cfg_h c /\ 0 <= cfg_d c
     /\ 0 <= cfg_t1 c /\ 0 <= cfg_t2 c /\ cfg_t1 c <= cfg_t2 c
     /\ cfg_t2 c <= 15)
  /\ (forall f m sch,
        (forall c, f = Values c -> readable c = false \/ invalid_input c = true) ->
        exists o, main f m sch = Some (Returned o) /\ exit_status o = 1
          /\ exit_status o <> 0 /\ is_Some (stderr_line o)
          /\ workers_started o = 0%nat /\ report o = None)
  /\ (forall c m sch s, valid_config c -> startup_ok c m = true ->
        run c sch (init c) = Some s -> finished s = true ->
        main (Values c) m sch
        = Some (Returned (mkOutcome 0 None (Z.to_nat (cfg_n c)) (Some s))))
  /\ (forall f m sch o, main f m sch = Some (Returned o) ->
        exit_status o = 0 ->
        exists c s, f = Values c /\ valid_config c /\ startup_ok c m = true
          /\ run c sch (init c) = Some s /\ finished s = true
          /\ o = mkOutcome 0 None (Z.to_nat (cfg_n c)) (Some s))
  /\ (forall c m sch, valid_config c -> startup_ok c m = false ->
        (exists msg, main (Values c) m sch = Some (Returned (failure msg)))
        \/ (exists k, main (Values c) m sch = Some (Aborted k)
              /\ (k < Z.to_nat (cfg_n c))%nat)).
Proof.
  split; [exact invalid_input_false|].
  split; [|split; [|split; [exact main_zero|]]].
  - intros f m sch Hf. destruct (main_rejects f m sch Hf) as [msg Hm].
    eexists. split; [exact Hm|]. simpl. repeat split; eauto.
  - intros c m sch s Hv Hok Hrun Hf.
    rewrite (main_valid _ _ _ Hv Hok). by apply simulate_complete.
  - intros c m sch [Hr Hv] Hok. simpl. rewrite Hr, Hv. simpl.
    unfold startup_ok in Hok.
    destruct (ctor_throws m); [left; by eexists|].
    destruct (start_throws m) as [[[|k] w]|]; [left; by eexists| |done].
    apply Nat.ltb_ge in Hok. right. exists k.
    destruct (Nat.ltb_spec k (Z.to_nat (cfg_n c))); [done|lia].
Qed.

Lemma validation_and_exit_status_witness :
  valid_config scenarioA /\ startup_ok scenarioA no_fault = true
  /\ run scenarioA schA (init scenarioA) = Some stA_final
  /\ finished stA_final = true
  /\ main (Values scenarioA) no_fault schA
     = Some (Returned (mkOutcome 0 None 1 (Some stA_final))).
Proof.
  split; [exact valid_scenarioA|]. split; [reflexivity|].
  split; [exact run_schA|]. split; [reflexivity|].
  exact (proj1 (proj2 (proj2 validation_and_exit_status))
           scenarioA no_fault schA stA_final valid_scenarioA eq_refl
           run_schA eq_refl).
Defined.

(** X8. Termination.  Every valid configuration has a complete run of its
    threads: a schedule after which all workers and the status thread have
    returned, in a state where no party can form.  On a machine where the
    constructor and all [N + 1] thread starts succeed, [main] returns 0 on
    that schedule with the summary of that state. *)
Theorem every_valid_input_completes c m :
  valid_config c -> startup_ok c m = true ->
  exists sch s, run c sch (init c) = Some s /\ finished s = true
    /\ no_more_parties s = true
    /\ main (Values c) m sch
       = Some (Returned (mkOutcome 0 None (Z.to_nat (cfg_n c)) (Some s))).
Proof.
  intros Hv Hok. pose proof (Inv_init _ Hv) as Hinv0.
  pose proof (work_left_nonneg _ _ Hinv0) as H0.
  destruct (workers_finish c (Z.to_nat (work_left (init c))) (init c) Hv
              (reach_init c) ltac:(lia)) as (sch1 & s1 & Hrun1 & Hs1).
  assert (Hr1 : reachable c s1) by (by eapply run_reachable).
  destruct (monitor_finish _ _ Hv Hr1 Hs1) as (sch2 & s2 & Hrun2 & Hfin & _).
  assert (Hrun : run c (sch1 ++ sch2) (init c) = Some s2)
    by (by rewrite run_app, Hrun1).
  exists (sch1 ++ sch2), s2. split; [done|]. split; [done|]. split.
  - apply (all_stopped_terminal c); [done|by eapply run_reachable|].
    unfold finished in Hfin. by apply andb_true_iff in Hfin as [? _].
  - rewrite (main_valid _ _ _ Hv Hok). by apply simulate_complete.
Qed.

Lemma every_valid_input_completes_witness :
  valid_config scenarioB /\ startup_ok scenarioB no_fault = true
  /\ exists sch s, run scenarioB sch (init scenarioB) = Some s
       /\ finished s = true /\ no_more_parties s = true
       /\ main (Values scenarioB) no_fault sch
          = Some (Returned (mkOutcome 0 None (Z.to_nat (cfg_n scenarioB))
                              (Some s))).
Proof.
  split; [exact valid_scenarioB|]. split; [reflexivity|].
  exact (every_valid_input_completes scenarioB no_fault valid_scenarioB
           eq_refl).
Defined.
